(** * SupaFlow: a shallow embedding of the event-stream client

    The development follows the class [SupaFlow] of the TypeScript source:
    the incremental frame parser, the retry policy, the event dispatcher with
    its filter and transformer pipeline, the bounded history, the batch
    aggregator and the [connect] procedure with its error handling.

    Conventions of the embedding.
    - A JavaScript string is a [string]; a character stands for one code unit
      below 256, which covers every character the parser inspects.
    - A JavaScript number is a [Z]; the retry counter, which only ever counts
      up from zero, is a [nat].
    - An instance of the class is a record [SupaFlow.t]; a method is a
      computation in the monad [M], which threads the instance, collects the
      calls made to the outside (handlers, the state observer, timers) and
      ends normally, with an exception, suspended at an [await], or not at
      all.
    - The transport is not run: one connection attempt is described by a
      [FetchResult], the script of what [fetch] and the stream reader
      answer; chunks arrive decoded to text.
    - The callbacks of the caller (data handler, transformers, event
      handlers) are functions of their argument that return or throw; they
      do not call back into the instance.
    - [Date.now()] is the time at which the chunk being processed arrived.
    - Timers are not run: a [setTimeout] is recorded as an effect, and what
      an interval would call is a method of its own ([reconnect],
      [batchIntervalTick]). Console output is left out. *)

From Stdlib Require Import ZArith Ascii.
From stdpp Require Import base option list gmap strings pretty.

Local Open Scope Z_scope.

(** ** Values of type [any] *)

Local Unset Elimination Schemes.
Inductive any : Type :=
| Undefined
| Null
| Bool (b : bool)
| Num (z : Z)
| Str (s : string)
| Arr (l : list any)
| Obj (fields : list (string * any)).
Local Set Elimination Schemes.

(** ** Numbers

    The counters, sizes, times and configured bounds of the source are
    integers that a double holds exactly; they are kept as [Z] or [nat], on
    which the comparisons, sums and differences of the source are exact. The
    one computation that leaves them is the retry delay, where
    [Math.pow(2, retryCount)] grows out of the range of doubles: its result
    is a [number], an integer or one of the special values of doubles. *)
Inductive number : Type :=
| Finite (z : Z)
| PosInfinity
| NegInfinity
| NaN.

(** The doubles end below [2^1024]: a result of that size or more is an
    infinity. *)
Definition overflow : Z := 2 ^ 1024.

(** ** Errors *)

(** The [details] argument of [SupaFlowError], one constructor per shape the
    source builds. *)
Inductive ErrorDetails : Type :=
| NoDetails
| StatusDetails (status : Z)
| RetryCountDetails (retryCount : nat)
| OriginalErrorDetails (originalError : any).

Module SupaFlowError.
Record t : Type := mk {
  message : string;
  code : string;
  details : ErrorDetails
}.
End SupaFlowError.

(** What a [throw] carries: an instance of [SupaFlowError], or any other
    value (the rejections of [fetch] and of the reader among them). *)
Inductive Thrown : Type :=
| ThrownSupaFlowError (e : SupaFlowError.t)
| ThrownOther (e : any).

(** A callback of type [(data: any) => any] either returns or throws. *)
Inductive Result (A : Type) : Type :=
| Returns (a : A)
| Throws (e : Thrown).
Arguments Returns {A} a.
Arguments Throws {A} e.

(** ** Data model *)

Module EventMessage.
(** [Partial<EventMessage>]: a key that was never assigned is [None]; a key
    assigned the empty string is [Some ""]. *)
Record t : Type := mk {
  id : option string;
  event : option string;
  data : option string;
  retry : option Z
}.

Definition empty : t := mk None None None None.

(** [Object.keys(message).length] *)
Definition keys (m : t) : nat :=
  ((if id m is Some _ then 1 else 0) + (if event m is Some _ then 1 else 0) +
   (if data m is Some _ then 1 else 0) + (if retry m is Some _ then 1 else 0))%nat.
End EventMessage.

Inductive ConnectionState : Type :=
| CONNECTING
| CONNECTED
| DISCONNECTED
| RECONNECTING
| ERROR.

Module RetryStrategy.
Record t : Type := mk {
  initialRetryDelay : option Z;
  maxRetryDelay : option Z;
  maxRetries : option Z
}.
Definition empty : t := mk None None None.
End RetryStrategy.

Module Heartbeat.
Record t : Type := mk {
  enabled : bool;
  interval : option Z;
  timeout : option Z
}.
End Heartbeat.

Module EventFilter.
Record t : Type := mk {
  include : option (list string);
  exclude : option (list string)
}.
Definition empty : t := mk None None.
End EventFilter.

Module BatchConfig.
Record t : Type := mk {
  enabled : bool;
  size : option Z;
  interval : option Z
}.
Definition empty : t := mk false None None.
End BatchConfig.

Module SupaFlowOptions.
(** [fetchOptions] and [debug] only reach the transport and the console and
    are left out; [onStateChange] is the observer every [setState]
    reports to (see [Effect]). *)
Record t : Type := mk {
  retryStrategy : option RetryStrategy.t;
  dataHandler : option (any -> Result any);
  autoReconnect : option bool;
  heartbeat : option Heartbeat.t;
  bufferSize : option Z;
  eventFilter : option EventFilter.t;
  transformers : option (list (any -> Result any));
  batchConfig : option BatchConfig.t
}.

(** The options object of a caller who passes nothing. *)
Definition none : t := mk None None None None None None None None.
End SupaFlowOptions.

Module SupaFlowResponse.
Record metadata_t : Type := mkMetadata {
  timestamp : Z;
  eventId : option string;
  retryCount : nat
}.
Record t : Type := mk {
  data : any;
  metadata : metadata_t
}.
End SupaFlowResponse.

(** A handler is known by reference; [hid] stands for that reference and
    [hthrows] tells on which arguments the call ends with an exception. *)
Module EventHandler.
Record t : Type := mk {
  hid : nat;
  hthrows : any -> bool
}.
End EventHandler.

Module SupaFlow.
Record t : Type := mk {
  options : SupaFlowOptions.t;
  retryCount : nat;
  buffer : list SupaFlowResponse.t;
  controller : bool;
  heartbeatInterval : option Z;
  lastMessageTime : Z;
  lastEventId : option string;
  messageBuffer : string;
  eventHandlers : gmap string (list EventHandler.t);
  connectionState : ConnectionState;
  batchBuffer : list any;
  batchInterval : option Z
}.
End SupaFlow.

Definition set_retryCount (v : nat) (s : SupaFlow.t) : SupaFlow.t :=
  SupaFlow.mk (SupaFlow.options s) v (SupaFlow.buffer s)
    (SupaFlow.controller s) (SupaFlow.heartbeatInterval s)
    (SupaFlow.lastMessageTime s) (SupaFlow.lastEventId s)
    (SupaFlow.messageBuffer s) (SupaFlow.eventHandlers s)
    (SupaFlow.connectionState s) (SupaFlow.batchBuffer s)
    (SupaFlow.batchInterval s).

Definition set_buffer (v : list SupaFlowResponse.t) (s : SupaFlow.t) : SupaFlow.t :=
  SupaFlow.mk (SupaFlow.options s) (SupaFlow.retryCount s) v
    (SupaFlow.controller s) (SupaFlow.heartbeatInterval s)
    (SupaFlow.lastMessageTime s) (SupaFlow.lastEventId s)
    (SupaFlow.messageBuffer s) (SupaFlow.eventHandlers s)
    (SupaFlow.connectionState s) (SupaFlow.batchBuffer s)
    (SupaFlow.batchInterval s).

Definition set_controller (v : bool) (s : SupaFlow.t) : SupaFlow.t :=
  SupaFlow.mk (SupaFlow.options s) (SupaFlow.retryCount s) (SupaFlow.buffer s)
    v (SupaFlow.heartbeatInterval s)
    (SupaFlow.lastMessageTime s) (SupaFlow.lastEventId s)
    (SupaFlow.messageBuffer s) (SupaFlow.eventHandlers s)
    (SupaFlow.connectionState s) (SupaFlow.batchBuffer s)
    (SupaFlow.batchInterval s).

Definition set_heartbeatInterval (v : option Z) (s : SupaFlow.t) : SupaFlow.t :=
  SupaFlow.mk (SupaFlow.options s) (SupaFlow.retryCount s) (SupaFlow.buffer s)
    (SupaFlow.controller s) v
    (SupaFlow.lastMessageTime s) (SupaFlow.lastEventId s)
    (SupaFlow.messageBuffer s) (SupaFlow.eventHandlers s)
    (SupaFlow.connectionState s) (SupaFlow.batchBuffer s)
    (SupaFlow.batchInterval s).

Definition set_lastMessageTime (v : Z) (s : SupaFlow.t) : SupaFlow.t :=
  SupaFlow.mk (SupaFlow.options s) (SupaFlow.retryCount s) (SupaFlow.buffer s)
    (SupaFlow.controller s) (SupaFlow.heartbeatInterval s)
    v (SupaFlow.lastEventId s)
    (SupaFlow.messageBuffer s) (SupaFlow.eventHandlers s)
    (SupaFlow.connectionState s) (SupaFlow.batchBuffer s)
    (SupaFlow.batchInterval s).

Definition set_lastEventId (v : option string) (s : SupaFlow.t) : SupaFlow.t :=
  SupaFlow.mk (SupaFlow.options s) (SupaFlow.retryCount s) (SupaFlow.buffer s)
    (SupaFlow.controller s) (SupaFlow.heartbeatInterval s)
    (SupaFlow.lastMessageTime s) v
    (SupaFlow.messageBuffer s) (SupaFlow.eventHandlers s)
    (SupaFlow.connectionState s) (SupaFlow.batchBuffer s)
    (SupaFlow.batchInterval s).

Definition set_messageBuffer (v : string) (s : SupaFlow.t) : SupaFlow.t :=
  SupaFlow.mk (SupaFlow.options s) (SupaFlow.retryCount s) (SupaFlow.buffer s)
    (SupaFlow.controller s) (SupaFlow.heartbeatInterval s)
    (SupaFlow.lastMessageTime s) (SupaFlow.lastEventId s)
    v (SupaFlow.eventHandlers s)
    (SupaFlow.connectionState s) (SupaFlow.batchBuffer s)
    (SupaFlow.batchInterval s).

Definition set_eventHandlers (v : gmap string (list EventHandler.t))
    (s : SupaFlow.t) : SupaFlow.t :=
  SupaFlow.mk (SupaFlow.options s) (SupaFlow.retryCount s) (SupaFlow.buffer s)
    (SupaFlow.controller s) (SupaFlow.heartbeatInterval s)
    (SupaFlow.lastMessageTime s) (SupaFlow.lastEventId s)
    (SupaFlow.messageBuffer s) v
    (SupaFlow.connectionState s) (SupaFlow.batchBuffer s)
    (SupaFlow.batchInterval s).

Definition set_connectionState (v : ConnectionState) (s : SupaFlow.t) : SupaFlow.t :=
  SupaFlow.mk (SupaFlow.options s) (SupaFlow.retryCount s) (SupaFlow.buffer s)
    (SupaFlow.controller s) (SupaFlow.heartbeatInterval s)
    (SupaFlow.lastMessageTime s) (SupaFlow.lastEventId s)
    (SupaFlow.messageBuffer s) (SupaFlow.eventHandlers s)
    v (SupaFlow.batchBuffer s)
    (SupaFlow.batchInterval s).

Definition set_batchBuffer (v : list any) (s : SupaFlow.t) : SupaFlow.t :=
  SupaFlow.mk (SupaFlow.options s) (SupaFlow.retryCount s) (SupaFlow.buffer s)
    (SupaFlow.controller s) (SupaFlow.heartbeatInterval s)
    (SupaFlow.lastMessageTime s) (SupaFlow.lastEventId s)
    (SupaFlow.messageBuffer s) (SupaFlow.eventHandlers s)
    (SupaFlow.connectionState s) v
    (SupaFlow.batchInterval s).

Definition set_batchInterval (v : option Z) (s : SupaFlow.t) : SupaFlow.t :=
  SupaFlow.mk (SupaFlow.options s) (SupaFlow.retryCount s) (SupaFlow.buffer s)
    (SupaFlow.controller s) (SupaFlow.heartbeatInterval s)
    (SupaFlow.lastMessageTime s) (SupaFlow.lastEventId s)
    (SupaFlow.messageBuffer s) (SupaFlow.eventHandlers s)
    (SupaFlow.connectionState s) (SupaFlow.batchBuffer s)
    v.

(** ** Calls to the outside *)

(** What a method does besides changing the instance: the calls of the state
    observer and of the handlers, the timer it sets, the abort of the
    transport. A call of [emit] is recorded as well, so that an event shows
    even when no handler receives it. *)
Inductive Effect : Type :=
| StateChanged (state : ConnectionState)
    (* [this.options.onStateChange?.(state)] *)
| Emitted (event : string) (data : any)
    (* a call [this.emit(event, data)] *)
| Delivered (event : string) (hid : nat) (data : any)
    (* [handler(transformedData)] for a handler registered under [event] *)
| ReconnectScheduled (delay : number)
    (* [setTimeout(() => this.reconnect(), delay)] *)
| Aborted.
    (* [this.controller.abort()] *)

(** ** The monad of methods *)

Inductive Completion (A : Type) : Type :=
| Done (a : A)         (* the call returned *)
| Raised (e : Thrown)  (* the call threw *)
| Suspended            (* the call waits at an [await] that has not settled *)
| Diverged.            (* the call is in a loop that does not end *)
Arguments Done {A} a.
Arguments Raised {A} e.
Arguments Suspended {A}.
Arguments Diverged {A}.

Definition M (A : Type) : Type :=
  SupaFlow.t -> Completion A * SupaFlow.t * list Effect.

Definition ret {A} (a : A) : M A := fun s => (Done a, s, []).

Definition bind {A B} (m : M A) (f : A -> M B) : M B := fun s =>
  match m s with
  | (Done a, s1, t1) => let '(c, s2, t2) := f a s1 in (c, s2, t1 ++ t2)
  | (Raised e, s1, t1) => (Raised e, s1, t1)
  | (Suspended, s1, t1) => (Suspended, s1, t1)
  | (Diverged, s1, t1) => (Diverged, s1, t1)
  end.

Definition throw {A} (e : Thrown) : M A := fun s => (Raised e, s, []).
Definition suspend {A} : M A := fun s => (Suspended, s, []).
Definition diverge {A} : M A := fun s => (Diverged, s, []).
Definition gets {A} (f : SupaFlow.t -> A) : M A := fun s => (Done (f s), s, []).
Definition modify (f : SupaFlow.t -> SupaFlow.t) : M unit := fun s => (Done tt, f s, []).
Definition tell (e : Effect) : M unit := fun s => (Done tt, s, [e]).

(** [try { body } catch (error) { handler }] *)
Definition try_catch {A} (body : M A) (handler : Thrown -> M A) : M A := fun s =>
  match body s with
  | (Raised e, s1, t1) => let '(c, s2, t2) := handler e s1 in (c, s2, t1 ++ t2)
  | r => r
  end.

(** Calling a callback of the caller: its exception becomes ours. *)
Definition call {A} (r : Result A) : M A :=
  match r with
  | Returns a => ret a
  | Throws e => throw e
  end.

Declare Scope js_scope.
Delimit Scope js_scope with js.
Notation "x <- m ;; k" := (bind m (fun x => k))
  (at level 100, m at next level, right associativity) : js_scope.
Notation "m ;; k" := (bind m (fun _ => k))
  (at level 100, right associativity) : js_scope.
Notation "'when' b 'then' m" := (if b then m else ret tt)
  (at level 100, b at level 99, m at level 100) : js_scope.
Local Open Scope js_scope.

Definition completion {A} (r : Completion A * SupaFlow.t * list Effect) : Completion A :=
  r.1.1.
Definition final {A} (r : Completion A * SupaFlow.t * list Effect) : SupaFlow.t :=
  r.1.2.
Definition effects {A} (r : Completion A * SupaFlow.t * list Effect) : list Effect :=
  r.2.

(** ** String primitives of the platform *)

Definition LF : ascii := "010"%char.
Definition CR : ascii := "013"%char.

(** Puts a character in front of the first piece of a split. *)
Definition cons_head (c : ascii) (pieces : list string) : list string :=
  match pieces with
  | [] => [String c ""]
  | p :: ps => String c p :: ps
  end.

(** [s.split(/\r?\n/)]: the pieces between the separators, a separator being
    a line feed or a carriage return directly followed by a line feed. The
    result always has a last piece, which is empty when [s] ends with a
    separator. *)
Fixpoint split_lines (s : string) : list string :=
  match s with
  | EmptyString => [""]
  | String c rest =>
      if Ascii.eqb c LF then "" :: split_lines rest
      else
        match rest with
        | String c' rest' =>
            if Ascii.eqb c CR && Ascii.eqb c' LF then "" :: split_lines rest'
            else cons_head c (split_lines rest)
        | EmptyString => cons_head c (split_lines rest)
        end
  end.

(** [lines.pop() || '']: the value, and the array that is left. *)
Definition pop_or_empty (lines : list string) : string := List.last lines "".
Definition popped (lines : list string) : list string := List.removelast lines.

(** [line.indexOf(c)], [None] standing for -1. *)
Fixpoint indexOf (c : ascii) (s : string) : option nat :=
  match s with
  | EmptyString => None
  | String c' rest =>
      if Ascii.eqb c' c then Some 0%nat else S <$> indexOf c rest
  end.

(** [s.slice(0, n)] and [s.slice(n)] for [0 <= n]. *)
Fixpoint slice_to (n : nat) (s : string) : string :=
  match n, s with
  | S n', String c rest => String c (slice_to n' rest)
  | _, _ => ""
  end.

Fixpoint slice_from (n : nat) (s : string) : string :=
  match n, s with
  | S n', String _ rest => slice_from n' rest
  | _, _ => s
  end.

(** White space and line terminators among the code units below 256. *)
Definition isWhiteSpace (c : ascii) : bool :=
  match c with
  | "009" | "010" | "011" | "012" | "013" | " " | "160" => true
  | _ => false
  end%char.

Fixpoint trimStart (s : string) : string :=
  match s with
  | EmptyString => ""
  | String c rest => if isWhiteSpace c then trimStart rest else s
  end.

Fixpoint trimEnd (s : string) : string :=
  match s with
  | EmptyString => ""
  | String c rest =>
      match trimEnd rest with
      | EmptyString => if isWhiteSpace c then "" else String c ""
      | rest' => String c rest'
      end
  end.

(** [s.trim()] *)
Definition trim (s : string) : string := trimEnd (trimStart s).

(** The value of the longest prefix of decimal digits, [None] when the
    prefix is empty. *)
Fixpoint digits (s : string) (acc : option Z) : option Z :=
  match s with
  | EmptyString => acc
  | String c rest =>
      match Ascii.is_nat c with
      | Some d => digits rest (Some (10 * default 0 acc + Z.of_nat d))
      | None => acc
      end
  end.

(** [parseInt(s, 10)], [None] standing for NaN. *)
Definition parseInt (s : string) : option Z :=
  match trimStart s with
  | String "-" rest => Z.opp <$> digits rest None
  | String "+" rest => digits rest None
  | s' => digits s' None
  end.

(** [x || d] on numbers: [undefined] and 0 are falsy. *)
Definition or_default (x : option Z) (d : Z) : Z :=
  match x with
  | Some 0 => d
  | Some v => v
  | None => d
  end.

(** [x?.length] as a condition: a list that is present and not empty. *)
Definition has_length {A} (x : option (list A)) : bool :=
  match x with
  | Some (_ :: _) => true
  | _ => false
  end.

(** [s] as a condition: a string that is present and not empty. *)
Definition truthy_string (x : option string) : option string :=
  match x with
  | Some EmptyString => None
  | other => other
  end.

(** ** The class [SupaFlow] *)

(** The defaults the constructor spreads the caller's options over. *)
Definition default_options (options : SupaFlowOptions.t) : SupaFlowOptions.t :=
  SupaFlowOptions.mk
    (Some (default (RetryStrategy.mk (Some 1000) (Some 30000) (Some 10))
                   (SupaFlowOptions.retryStrategy options)))
    (SupaFlowOptions.dataHandler options)
    (Some (default true (SupaFlowOptions.autoReconnect options)))
    (Some (default (Heartbeat.mk true (Some 30000) (Some 60000))
                   (SupaFlowOptions.heartbeat options)))
    (Some (default 1000 (SupaFlowOptions.bufferSize options)))
    (SupaFlowOptions.eventFilter options)
    (SupaFlowOptions.transformers options)
    (SupaFlowOptions.batchConfig options).

Definition batchConfig_enabled (s : SupaFlow.t) : bool :=
  match SupaFlowOptions.batchConfig (SupaFlow.options s) with
  | Some c => BatchConfig.enabled c
  | None => false
  end.

Definition initBatchProcessing : M unit :=
  c <- gets (fun s => default BatchConfig.empty
                        (SupaFlowOptions.batchConfig (SupaFlow.options s))) ;;
  let interval := default 1000 (BatchConfig.interval c) in
  modify (set_batchInterval (Some interval)).

(** [new SupaFlow(url, options)], built at time [now]. *)
Definition constructor (options : SupaFlowOptions.t) (now : Z) : SupaFlow.t :=
  let s := SupaFlow.mk (default_options options) 0 [] false None now None ""
             ∅ DISCONNECTED [] None in
  if batchConfig_enabled s then final (initBatchProcessing s) else s.

Definition handleHeartbeat : M unit :=
  hb <- gets (fun s => SupaFlowOptions.heartbeat (SupaFlow.options s)) ;;
  match hb with
  | Some h =>
      if Heartbeat.enabled h then
        let interval := or_default (Heartbeat.interval h) 30000 in
        modify (set_heartbeatInterval (Some interval))
      else ret tt
  | None => ret tt
  end.

Definition clearHeartbeat : M unit :=
  hi <- gets SupaFlow.heartbeatInterval ;;
  when (bool_decide (is_Some hi)) then modify (set_heartbeatInterval None).

(** [Math.pow(2, n)] for a counter [n]: the power of two while a double
    holds it, [Infinity] from [n = 1024] on. *)
Definition Math_pow2 (n : nat) : number :=
  if (n <? 1024)%nat then Finite (2 ^ Z.of_nat n) else PosInfinity.

(** [x * y] for a configured integer [x] and a power of two or an infinity
    [y]. The product of a double and a power of two is exact when it is in
    the range of doubles and is the infinity of its sign when it is not; the
    product of zero and an infinity is [NaN]. *)
Definition times (x : Z) (y : number) : number :=
  match y with
  | Finite p =>
      if overflow <=? x * p then PosInfinity
      else if x * p <=? - overflow then NegInfinity
      else Finite (x * p)
  | PosInfinity =>
      if x =? 0 then NaN else if 0 <? x then PosInfinity else NegInfinity
  | NegInfinity =>
      if x =? 0 then NaN else if 0 <? x then NegInfinity else PosInfinity
  | NaN => NaN
  end.

(** [Math.min(x, y)] for a configured integer [y]. *)
Definition Math_min (x : number) (y : Z) : number :=
  match x with
  | Finite p => Finite (Z.min p y)
  | PosInfinity => Finite y
  | NegInfinity => NegInfinity
  | NaN => NaN
  end.

Definition calculateRetryDelay (s : SupaFlow.t) : number :=
  let rs := default RetryStrategy.empty
              (SupaFlowOptions.retryStrategy (SupaFlow.options s)) in
  let initialRetryDelay := default 1000 (RetryStrategy.initialRetryDelay rs) in
  let maxRetryDelay := default 30000 (RetryStrategy.maxRetryDelay rs) in
  Math_min (times initialRetryDelay (Math_pow2 (SupaFlow.retryCount s))) maxRetryDelay.

(** The [switch (field)] of the parser: the record after one field line. *)
Definition setField (field value : string) (message : EventMessage.t) : EventMessage.t :=
  if String.eqb field "id" then
    EventMessage.mk (Some value) (EventMessage.event message)
      (EventMessage.data message) (EventMessage.retry message)
  else if String.eqb field "event" then
    EventMessage.mk (EventMessage.id message) (Some value)
      (EventMessage.data message) (EventMessage.retry message)
  else if String.eqb field "data" then
    EventMessage.mk (EventMessage.id message) (EventMessage.event message)
      (Some match truthy_string (EventMessage.data message) with
            | Some d => d +:+ String LF "" +:+ value
            | None => value
            end)
      (EventMessage.retry message)
  else if String.eqb field "retry" then
    match parseInt value with
    | Some retry =>
        EventMessage.mk (EventMessage.id message) (EventMessage.event message)
          (EventMessage.data message) (Some retry)
    | None => message
    end
  else message.

(** The body of [for (const line of lines)], with the local variables
    [message] and [messages] as arguments. *)
Fixpoint parseLines (lines : list string) (message : EventMessage.t)
    (messages : list EventMessage.t) : M (list EventMessage.t) :=
  match lines with
  | [] => ret messages
  | line :: rest =>
      if String.eqb line "" then
        if (0 <? EventMessage.keys message)%nat
        then parseLines rest EventMessage.empty (messages ++ [message])
        else parseLines rest message messages
      else
        match indexOf ":" line with
        | None => parseLines rest message messages
        | Some colonIndex =>
            let field := trim (slice_to colonIndex line) in
            let value := trim (slice_from (S colonIndex) line) in
            (when String.eqb field "id" then modify (set_lastEventId (Some value))) ;;
            parseLines rest (setField field value message) messages
        end
  end.

Definition parseEventStream (chunk : string) : M (list EventMessage.t) :=
  modify (fun s => set_messageBuffer (SupaFlow.messageBuffer s +:+ chunk) s) ;;
  lines <- gets (fun s => split_lines (SupaFlow.messageBuffer s)) ;;
  modify (set_messageBuffer (pop_or_empty lines)) ;;
  parseLines (popped lines) EventMessage.empty [].

Definition setState (state : ConnectionState) : M unit :=
  modify (set_connectionState state) ;;
  tell (StateChanged state).

Definition shouldProcessEvent (s : SupaFlow.t) (eventName : string) : bool :=
  let f := default EventFilter.empty
             (SupaFlowOptions.eventFilter (SupaFlow.options s)) in
  if has_length (EventFilter.include f)
  then bool_decide (eventName ∈ default [] (EventFilter.include f))
  else if has_length (EventFilter.exclude f)
  then negb (bool_decide (eventName ∈ default [] (EventFilter.exclude f)))
  else true.

Definition transformData (s : SupaFlow.t) (data : any) : any :=
  if has_length (SupaFlowOptions.transformers (SupaFlow.options s)) then
    fold_left
      (fun result transformer =>
         match transformer result with
         | Returns r => r
         | Throws _ => result
         end)
      (default [] (SupaFlowOptions.transformers (SupaFlow.options s))) data
  else data.

(** [handlers.add(handler)] on a [Set]: a reference that is already a member
    is not added again; members keep their order of insertion. *)
Definition set_add (h : EventHandler.t) (handlers : list EventHandler.t) : list EventHandler.t :=
  if bool_decide (EventHandler.hid h ∈ EventHandler.hid <$> handlers)
  then handlers else handlers ++ [h].

Definition set_delete (h : EventHandler.t) (handlers : list EventHandler.t) : list EventHandler.t :=
  filter (fun h' => EventHandler.hid h' ≠ EventHandler.hid h) handlers.

Definition on (event : string) (handler : EventHandler.t) : M unit :=
  modify (fun s =>
    set_eventHandlers
      (<[event := set_add handler
                    (default [] (SupaFlow.eventHandlers s !! event))]>
         (SupaFlow.eventHandlers s)) s).

Definition off (event : string) (handler : EventHandler.t) : M unit :=
  modify (fun s =>
    set_eventHandlers
      (alter (set_delete handler) event (SupaFlow.eventHandlers s)) s).

(** [handlers.forEach(handler => { try { handler(data) } catch {} })]: every
    handler is called, whether or not an earlier one threw. *)
Fixpoint forEachHandler (event : string) (handlers : list EventHandler.t)
    (data : any) : M unit :=
  match handlers with
  | [] => ret tt
  | handler :: rest =>
      try_catch
        (tell (Delivered event (EventHandler.hid handler) data) ;;
         if EventHandler.hthrows handler data
         then throw (ThrownOther Undefined) else ret tt)
        (fun _ => ret tt) ;;
      forEachHandler event rest data
  end.

Definition emit (event : string) (data : any) : M unit :=
  tell (Emitted event data) ;;
  pass <- gets (fun s => shouldProcessEvent s event) ;;
  if negb pass then ret tt
  else
    handlers <- gets (fun s => SupaFlow.eventHandlers s !! event) ;;
    match handlers with
    | Some handlers =>
        transformedData <- gets (fun s => transformData s data) ;;
        forEachHandler event handlers transformedData
    | None => ret tt
    end.

(** The [while] loop of [processBatch]; [fuel] bounds the number of turns,
    and a loop that outlives it is reported as [Diverged]. *)
Fixpoint processBatch_loop (fuel : nat) (size : Z) : M unit :=
  match fuel with
  | O => diverge
  | S fuel' =>
      pending <- gets SupaFlow.batchBuffer ;;
      if size <=? Z.of_nat (length pending) then
        (* [splice(0, size)] removes [min(max(size, 0), length)] items *)
        let batch := take (Z.to_nat size) pending in
        modify (set_batchBuffer (drop (Z.to_nat size) pending)) ;;
        emit "batch" (Arr batch) ;;
        processBatch_loop fuel' size
      else ret tt
  end.

Definition batchSize (s : SupaFlow.t) : Z :=
  default 10 (BatchConfig.size
                (default BatchConfig.empty
                   (SupaFlowOptions.batchConfig (SupaFlow.options s)))).

Definition processBatch : M unit :=
  size <- gets batchSize ;;
  pending <- gets SupaFlow.batchBuffer ;;
  processBatch_loop (S (length pending)) size.

Definition getBuffer (s : SupaFlow.t) : list SupaFlowResponse.t := SupaFlow.buffer s.

Definition clearBuffer : M unit := modify (set_buffer []).

Definition getState (s : SupaFlow.t) : ConnectionState := SupaFlow.connectionState s.

Definition getBatchBuffer (s : SupaFlow.t) : list any := SupaFlow.batchBuffer s.

Definition flushBatchBuffer : M unit :=
  pending <- gets SupaFlow.batchBuffer ;;
  if (0 <? length pending)%nat then
    let batch := pending in
    modify (set_batchBuffer []) ;;
    emit "batch" (Arr batch)
  else ret tt.

Definition close : M unit :=
  setState DISCONNECTED ;;
  c <- gets SupaFlow.controller ;;
  (when c then (tell Aborted ;; modify (set_controller false))) ;;
  clearHeartbeat ;;
  bi <- gets SupaFlow.batchInterval ;;
  when (bool_decide (is_Some bi)) then modify (set_batchInterval None).

(** ** One connection attempt *)

(** What [reader.read()] resolves to while the stream is open: a chunk, already
    decoded to text, or no value; [now] is the clock when it arrives. *)
Inductive ReadResult : Type :=
| Chunk (now : Z) (value : option string).

Inductive StreamEnd : Type :=
| EndOfStream                 (* [done] is true *)
| ReadRejected (e : any)      (* the read fails or is aborted *)
| ReadPending.                (* the next read has not settled yet *)

Inductive FetchResult : Type :=
| FetchPending
| FetchRejected (e : any)
| Response (ok : bool) (status : Z) (statusText : string)
    (body : option (list ReadResult * StreamEnd)).

Definition connectionError (status : Z) (statusText : string) : Thrown :=
  ThrownSupaFlowError
    (SupaFlowError.mk
       ("Failed to connect: " +:+ pretty status +:+ " " +:+ statusText)
       "CONNECTION_ERROR" (StatusDetails status)).

Definition invalidResponse : Thrown :=
  ThrownSupaFlowError
    (SupaFlowError.mk "Response body is null" "INVALID_RESPONSE" NoDetails).

Definition maxRetriesExceeded (retryCount : nat) : Thrown :=
  ThrownSupaFlowError
    (SupaFlowError.mk "Max retry attempts reached" "MAX_RETRIES_EXCEEDED"
       (RetryCountDetails retryCount)).

Definition unknownError (error : any) : Thrown :=
  ThrownSupaFlowError
    (SupaFlowError.mk "Connection failed" "UNKNOWN_ERROR"
       (OriginalErrorDetails error)).

Definition autoReconnect (s : SupaFlow.t) : bool :=
  default false (SupaFlowOptions.autoReconnect (SupaFlow.options s)).

Definition maxRetries (s : SupaFlow.t) : Z :=
  default 10 (RetryStrategy.maxRetries
                (default RetryStrategy.empty
                   (SupaFlowOptions.retryStrategy (SupaFlow.options s)))).

Definition bufferCapacity (s : SupaFlow.t) : Z :=
  or_default (SupaFlowOptions.bufferSize (SupaFlow.options s)) 1000.

(** [if (this.options.dataHandler) parsedData = this.options.dataHandler(parsedData)] *)
Definition applyDataHandler (parsedData : any) : M any :=
  dataHandler <- gets (fun s => SupaFlowOptions.dataHandler (SupaFlow.options s)) ;;
  match dataHandler with
  | Some h => call (h parsedData)
  | None => ret parsedData
  end.

(** The batching step of the read loop: with batching enabled the payload
    joins the batch buffer, and a buffer that has reached [size || 10] items
    is handed to [processBatch]. *)
Definition collectBatch (parsedData : any) : M unit :=
  batching <- gets batchConfig_enabled ;;
  when batching then
    (modify (fun s => set_batchBuffer (SupaFlow.batchBuffer s ++ [parsedData]) s) ;;
     full <- gets (fun s =>
               or_default
                 (BatchConfig.size
                    (default BatchConfig.empty
                       (SupaFlowOptions.batchConfig (SupaFlow.options s)))) 10
               <=? Z.of_nat (length (SupaFlow.batchBuffer s))) ;;
     when full then processBatch).

(** An array after [push] and the [shift] that follows when its length
    exceeds the capacity. *)
Definition shiftOver (capacity : Z) (entries : list SupaFlowResponse.t)
    : list SupaFlowResponse.t :=
  if capacity <? Z.of_nat (length entries) then tail entries else entries.

(** [buffer.push(entry)] followed by the [shift] of an over-full buffer. *)
Definition pushBuffer (entry : SupaFlowResponse.t) : M unit :=
  modify (fun s => set_buffer (SupaFlow.buffer s ++ [entry]) s) ;;
  over <- gets (fun s => bufferCapacity s <? Z.of_nat (length (SupaFlow.buffer s))) ;;
  when over then modify (fun s => set_buffer (tail (SupaFlow.buffer s)) s).

(** What the data handler of an instance makes of a payload. *)
Definition handled (s : SupaFlow.t) (parsedData : any) : Result any :=
  match SupaFlowOptions.dataHandler (SupaFlow.options s) with
  | Some h => h parsedData
  | None => Returns parsedData
  end.

(** The history entry of a payload received at [now] in a record [message]
    while the retry counter is [retryCount]. *)
Definition entryOf (now : Z) (retryCount : nat) (message : EventMessage.t)
    (parsedData : any) : SupaFlowResponse.t :=
  SupaFlowResponse.mk parsedData
    (SupaFlowResponse.mkMetadata now (EventMessage.id message) retryCount).

Section Connect.

(** [JSON.parse], [None] when it throws. *)
Variable JSON_parse : string -> option any.

(** [JSON.parse(message.data)] with the raw text as fallback; parsing the
    [undefined] of a record without data throws, which leaves [undefined]. *)
Definition decodeData (message : EventMessage.t) : any :=
  match EventMessage.data message with
  | Some d => default (Str d) (JSON_parse d)
  | None => Undefined
  end.

(** The body of [for (const message of messages)], run at time [now]. *)
Definition processMessage (now : Z) (message : EventMessage.t) : M unit :=
  modify (set_lastMessageTime now) ;;
  parsedData <- applyDataHandler (decodeData message) ;;
  collectBatch parsedData ;;
  emit (default "message" (truthy_string (EventMessage.event message))) parsedData ;;
  retryCount <- gets SupaFlow.retryCount ;;
  pushBuffer
    (SupaFlowResponse.mk parsedData
       (SupaFlowResponse.mkMetadata now (EventMessage.id message) retryCount)).

Fixpoint processMessages (now : Z) (messages : list EventMessage.t) : M unit :=
  match messages with
  | [] => ret tt
  | message :: rest => processMessage now message ;; processMessages now rest
  end.

(** The [while (true)] loop around [reader.read()]. *)
Fixpoint readLoop (reads : list ReadResult) (ending : StreamEnd) : M unit :=
  match reads with
  | [] =>
      match ending with
      | EndOfStream => ret tt
      | ReadRejected e => throw (ThrownOther e)
      | ReadPending => suspend
      end
  | Chunk now value :: rest =>
      match value with
      | Some chunk =>
          messages <- parseEventStream chunk ;;
          processMessages now messages
      | None => ret tt
      end ;;
      readLoop rest ending
  end.

(** The [try] block of [connect], from the call of [fetch] on. The headers
    are built before that call; the last event id is taken to be a value
    [headers.set] accepts. *)
Definition attempt (response : FetchResult) : M unit :=
  match response with
  | FetchPending => suspend
  | FetchRejected e => throw (ThrownOther e)
  | Response ok status statusText body =>
      if negb ok then throw (connectionError status statusText)
      else
        match body with
        | None => throw invalidResponse
        | Some (reads, ending) =>
            modify (set_retryCount 0) ;;
            handleHeartbeat ;;
            readLoop reads ending ;;
            reconnecting <- gets autoReconnect ;;
            (when reconnecting then
               (delay <- gets calculateRetryDelay ;;
                tell (ReconnectScheduled delay))) ;;
            setState CONNECTED
        end
  end.

(** The [catch (error)] block of [connect]. *)
Definition recover (error : Thrown) : M unit :=
  setState ERROR ;;
  match error with
  | ThrownSupaFlowError _ => throw error
  | ThrownOther original =>
      limit <- gets maxRetries ;;
      retryCount <- gets SupaFlow.retryCount ;;
      if limit <=? Z.of_nat retryCount then throw (maxRetriesExceeded retryCount)
      else
        modify (fun s => set_retryCount (S (SupaFlow.retryCount s)) s) ;;
        reconnecting <- gets autoReconnect ;;
        if reconnecting then
          delay <- gets calculateRetryDelay ;;
          tell (ReconnectScheduled delay)
        else throw (unknownError original)
  end.

Definition connect (response : FetchResult) : M unit :=
  setState CONNECTING ;;
  modify (set_controller true) ;;
  try_catch (attempt response) recover.

Definition reconnect (response : FetchResult) : M unit :=
  close ;;
  connect response.

End Connect.

(** The tick of the timer [initBatchProcessing] installs. *)
Definition batchIntervalTick : M unit :=
  pending <- gets SupaFlow.batchBuffer ;;
  when (0 <? length pending)%nat then processBatch.

(** ** Reading the effects of a call *)

(** The handler calls among the effects, in order. *)
Definition deliveries (t : list Effect) : list (string * nat * any) :=
  omap (fun e => match e with
                 | Delivered event hid data => Some (event, hid, data)
                 | _ => None
                 end) t.

(** The calls of [emit] among the effects, in order. *)
Definition emissions (t : list Effect) : list (string * any) :=
  omap (fun e => match e with
                 | Emitted event data => Some (event, data)
                 | _ => None
                 end) t.

(** The reconnections scheduled among the effects, in order. *)
Definition scheduled (t : list Effect) : list number :=
  omap (fun e => match e with
                 | ReconnectScheduled delay => Some delay
                 | _ => None
                 end) t.

(** The handlers registered under an event name. *)
Definition handlersOf (s : SupaFlow.t) (event : string) : list EventHandler.t :=
  default [] (SupaFlow.eventHandlers s !! event).

(** What [emit] hands to the handlers of a state: nothing when the filter
    rejects the name, else the transformed data to each registered handler. *)
Definition dispatch (s : SupaFlow.t) (event : string) (data : any) : list Effect :=
  if shouldProcessEvent s event
  then (fun h => Delivered event (EventHandler.hid h) (transformData s data))
         <$> handlersOf s event
  else [].


(** What one batch contributes to the effects of a call made in state [s]. *)
Definition batchEffects (s : SupaFlow.t) (batch : list any) : list Effect :=
  Emitted "batch" (Arr batch) :: dispatch s "batch" (Arr batch).

(** ** Relations every step of a call maintains *)

(** A computation [m] maintains the relation [R] when the state it ends in,
    however it ends, is related to the state it started from. *)
Definition preserves {A} (R : relation SupaFlow.t) (m : M A) : Prop :=
  ∀ s, R s (final (m s)).

(** The states that agree on one component. *)
Definition same {B} (f : SupaFlow.t -> B) : relation SupaFlow.t :=
  fun s s' => f s' = f s.

(** The history is within the capacity [bufferSize || 1000]. *)
Definition within_capacity (s : SupaFlow.t) : Prop :=
  (length (SupaFlow.buffer s) <= Z.to_nat (bufferCapacity s))%nat.

(** The options are kept and a history within capacity stays so. *)
Definition keeps_capacity : relation SupaFlow.t :=
  fun s s' =>
    SupaFlow.options s' = SupaFlow.options s ∧
    (within_capacity s -> within_capacity s').

(** A relation that does not look at what parsing and message processing
    write: the carry-over text, the last event id, the time of the last
    message and the batch buffer. *)
Class Inert (R : relation SupaFlow.t) : Prop := {
  inert_messageBuffer : ∀ s v, R s (set_messageBuffer v s);
  inert_lastEventId : ∀ s v, R s (set_lastEventId v s);
  inert_lastMessageTime : ∀ s v, R s (set_lastMessageTime v s);
  inert_batchBuffer : ∀ s v, R s (set_batchBuffer v s)
}.

(** The last [n] elements of a list, in their order. *)
Definition lastN {A} (n : nat) (l : list A) : list A := drop (length l - n) l.

(** The instance when the [try] block of [connect] is entered. *)
Definition entering (s : SupaFlow.t) : SupaFlow.t :=
  set_controller true (set_connectionState CONNECTING s).

(** The instance when the read loop of an accepted connection is entered. *)
Definition accepted (s : SupaFlow.t) : SupaFlow.t :=
  final (handleHeartbeat (set_retryCount 0 (entering s))).

(** Feeding chunks to the parser one call after the other and joining the
    lists the calls return. *)
Fixpoint feed (chunks : list string) : M (list EventMessage.t) :=
  match chunks with
  | [] => ret []
  | chunk :: rest =>
      messages <- parseEventStream chunk ;;
      later <- feed rest ;;
      ret (messages ++ later)
  end.

(** The loop over the lines as a function: the records completed, the record
    in progress when the lines run out, and the last event id, from the
    record in progress and the last event id at the start. *)
Fixpoint scanLines (lines : list string) (message : EventMessage.t)
    (lastEventId : option string)
    : list EventMessage.t * EventMessage.t * option string :=
  match lines with
  | [] => ([], message, lastEventId)
  | line :: rest =>
      if String.eqb line "" then
        if (0 <? EventMessage.keys message)%nat then
          let '(completed, inProgress, lastId) :=
            scanLines rest EventMessage.empty lastEventId in
          (message :: completed, inProgress, lastId)
        else scanLines rest message lastEventId
      else
        match indexOf ":" line with
        | None => scanLines rest message lastEventId
        | Some colonIndex =>
            let field := trim (slice_to colonIndex line) in
            let value := trim (slice_from (S colonIndex) line) in
            scanLines rest (setField field value message)
              (if String.eqb field "id" then Some value else lastEventId)
        end
  end.

(** The record in progress when a call of the parser on [chunk] returns. *)
Definition inProgressAfter (s : SupaFlow.t) (chunk : string) : EventMessage.t :=
  (scanLines (popped (split_lines (SupaFlow.messageBuffer s +:+ chunk)))
     EventMessage.empty (SupaFlow.lastEventId s)).1.2.

(** ** Instances used in examples *)

(** A handler that returns normally on every argument. *)
Definition recorder (hid : nat) : EventHandler.t := EventHandler.mk hid (fun _ => false).

(** [eventFilter: { include: ['temperature'] }], with one handler for
    temperature events and one for humidity events. *)
Definition sensor_options : SupaFlowOptions.t :=
  SupaFlowOptions.mk None None None None None
    (Some (EventFilter.mk (Some ["temperature"]) None)) None None.

Definition sensor_flow : SupaFlow.t :=
  final (on "humidity" (recorder 1)
           (final (on "temperature" (recorder 0) (constructor sensor_options 0)))).

(** [eventFilter: { exclude: ['heartbeat'] }], with handlers for heartbeat
    and message events. *)
Definition quiet_options : SupaFlowOptions.t :=
  SupaFlowOptions.mk None None None None None
    (Some (EventFilter.mk None (Some ["heartbeat"]))) None None.

Definition quiet_flow : SupaFlow.t :=
  final (on "message" (recorder 1)
           (final (on "heartbeat" (recorder 0) (constructor quiet_options 0)))).

(** The text of a sequence of lines, each ended by a line feed. *)
Definition text_of_lines (lines : list string) : string :=
  foldr (fun line rest => line +:+ String LF rest) "" lines.

(** A decoder for payloads that are not JSON: [JSON.parse] throws on each. *)
Definition not_json : string -> option any := fun _ => None.

(** Batching by pairs, an include list that does not name the batch event,
    and a handler registered for batches. *)
Definition paired_options : SupaFlowOptions.t :=
  SupaFlowOptions.mk None None None None None
    (Some (EventFilter.mk (Some ["temperature"]) None)) None
    (Some (BatchConfig.mk true (Some 2) None)).

Definition paired_flow : SupaFlow.t :=
  final (on "batch" (recorder 0) (constructor paired_options 0)).

(** Batching with the default size of ten, no filter, and a handler
    registered for batches. *)
Definition batching_options : SupaFlowOptions.t :=
  SupaFlowOptions.mk None None None None None None None
    (Some (BatchConfig.mk true None None)).

Definition batching_flow : SupaFlow.t :=
  final (on "batch" (recorder 0) (constructor batching_options 0)).

(** An accepted connection whose stream has delivered the given lines and is
    still open. *)
Definition open_stream (now : Z) (lines : list string) : FetchResult :=
  Response true 200 "OK" (Some ([Chunk now (Some (text_of_lines lines))], ReadPending)).

(** Three records with the data a, b and c. *)
Definition three_records : FetchResult :=
  open_stream 1 ["data: a"; ""; "data: b"; ""; "data: c"; ""].

(** The two instances above while they read the three records. *)
Definition paired_reading : SupaFlow.t :=
  final (connect not_json three_records paired_flow).

Definition batching_reading : SupaFlow.t :=
  final (connect not_json three_records batching_flow).

(** [bufferSize: 0] *)
Definition zero_size_options : SupaFlowOptions.t :=
  SupaFlowOptions.mk None None None None (Some 0) None None None.

(** [bufferSize: 2] *)
Definition small_history_options : SupaFlowOptions.t :=
  SupaFlowOptions.mk None None None None (Some 2) None None None.

(** A record that carries only the given data. *)
Definition data_message (d : string) : EventMessage.t :=
  EventMessage.mk None None (Some d) None.

(** A fresh instance with the default options after two rejected fetches. *)
Definition failed_twice : SupaFlow.t :=
  final (connect not_json (FetchRejected (Str "network"))
           (final (connect not_json (FetchRejected (Str "network"))
                     (constructor SupaFlowOptions.none 0)))).

(** [autoReconnect: false] *)
Definition manual_options : SupaFlowOptions.t :=
  SupaFlowOptions.mk None None (Some false) None None None None None.

(** An accepted connection whose stream is open and has delivered nothing. *)
Definition silent_stream : FetchResult :=
  Response true 200 "OK" (Some ([], ReadPending)).

(** An accepted connection whose stream delivers the given lines and ends. *)
Definition ended_stream (now : Z) (lines : list string) : FetchResult :=
  Response true 200 "OK" (Some ([Chunk now (Some (text_of_lines lines))], EndOfStream)).



(** ** Further definitions *)

(** An instance with another list of transformers, the rest as it is. *)
Definition with_transformers (transformers : option (list (any -> Result any)))
    (s : SupaFlow.t) : SupaFlow.t :=
  SupaFlow.mk
    (SupaFlowOptions.mk
       (SupaFlowOptions.retryStrategy (SupaFlow.options s))
       (SupaFlowOptions.dataHandler (SupaFlow.options s))
       (SupaFlowOptions.autoReconnect (SupaFlow.options s))
       (SupaFlowOptions.heartbeat (SupaFlow.options s))
       (SupaFlowOptions.bufferSize (SupaFlow.options s))
       (SupaFlowOptions.eventFilter (SupaFlow.options s))
       transformers
       (SupaFlowOptions.batchConfig (SupaFlow.options s)))
    (SupaFlow.retryCount s) (SupaFlow.buffer s)
    (SupaFlow.controller s) (SupaFlow.heartbeatInterval s)
    (SupaFlow.lastMessageTime s) (SupaFlow.lastEventId s)
    (SupaFlow.messageBuffer s) (SupaFlow.eventHandlers s)
    (SupaFlow.connectionState s) (SupaFlow.batchBuffer s)
    (SupaFlow.batchInterval s).

(** A handler that throws on every argument. *)
Definition thrower (hid : nat) : EventHandler.t := EventHandler.mk hid (fun _ => true).

(** A transformer that wraps its argument in an array, and one that throws. *)
Definition wrap : any -> Result any := fun v => Returns (Arr [v]).
Definition failing : any -> Result any := fun v => Throws (ThrownOther (Str "bad")).

(** A fresh instance with a throwing and a recording handler for messages. *)
Definition guarded_flow : SupaFlow.t :=
  final (on "message" (recorder 2)
           (final (on "message" (thrower 1) (constructor SupaFlowOptions.none 0)))).

(** The text of a sequence of lines, each ended by a carriage return and a
    line feed. *)
Definition crlf_text_of_lines (lines : list string) : string :=
  foldr (fun line rest => line +:+ String CR (String LF rest)) "" lines.

(** A text without line feed. *)
Definition no_LF (text : string) : Prop := indexOf LF text = None.

(** The last character of a text, if it has one. *)
Fixpoint last_char (text : string) : option ascii :=
  match text with
  | EmptyString => None
  | String c EmptyString => Some c
  | String _ rest => last_char rest
  end.

(** A data line and an id line with the given text after the colon. *)
Definition data_line (v : string) : string := "data:" +:+ v.

(** The texts joined by line feeds. *)
Definition join_LF (texts : list string) : string :=
  match texts with
  | [] => ""
  | t :: ts => foldl (fun acc v => acc +:+ String LF "" +:+ v) t ts
  end.

(** The texts without the empty ones at the front. *)
Fixpoint skip_empty (texts : list string) : list string :=
  match texts with
  | EmptyString :: ts => skip_empty ts
  | _ => texts
  end.

(** A line the parser passes over: not blank, and without colon, or with a
    field name other than id, event, data and retry, or a retry line whose
    value is no number. *)
Definition ignorable (line : string) : Prop :=
  line ≠ "" ∧
  match indexOf ":" line with
  | None => True
  | Some colonIndex =>
      let field := trim (slice_to colonIndex line) in
      let value := trim (slice_from (S colonIndex) line) in
      (field ≠ "id" ∧ field ≠ "event" ∧ field ≠ "data" ∧ field ≠ "retry") ∨
      (field = "retry" ∧ parseInt value = None)
  end.

(** The state changes reported to the observer among the effects, in order. *)
Definition stateChanges (t : list Effect) : list ConnectionState :=
  omap (fun e => match e with
                 | StateChanged state => Some state
                 | _ => None
                 end) t.

(** A computation all of whose effects satisfy [P], however it ends. *)
Definition produces {A} (P : Effect -> Prop) (m : M A) : Prop :=
  ∀ s, Forall P (effects (m s)).

(** An effect of dispatching: a call of [emit] or of a handler. *)
Definition isDispatch (e : Effect) : Prop :=
  match e with
  | Emitted _ _ | Delivered _ _ _ => True
  | _ => False
  end.

(** [message.event || 'message'] *)
Definition eventName (message : EventMessage.t) : string :=
  default "message" (truthy_string (EventMessage.event message)).

(** [heartbeat.timeout || 60000], the bound the heartbeat timer compares the
    silence with. *)
Definition heartbeatTimeout (s : SupaFlow.t) : Z :=
  match SupaFlowOptions.heartbeat (SupaFlow.options s) with
  | Some h => or_default (Heartbeat.timeout h) 60000
  | None => 60000
  end.

(** A connection attempt during which no chunk arrives. *)
Definition silent (response : FetchResult) : Prop :=
  match response with
  | Response true _ _ (Some (_ :: _, _)) => False
  | _ => True
  end.

Section Timers.

Variable JSON_parse : string -> option any.

(** The tick of the timer [handleHeartbeat] installs, at time [now];
    [response] is what the transport answers if the tick reconnects. *)
Definition heartbeatTick (now : Z) (response : FetchResult) : M unit :=
  timeout <- gets heartbeatTimeout ;;
  lastMessageTime <- gets SupaFlow.lastMessageTime ;;
  if timeout <? now - lastMessageTime then reconnect JSON_parse response
  else ret tt.

(** [n] calls of [connect] in a row, each with a rejected fetch: the instance
    at the end and the delays of the reconnections scheduled on the way. *)
Fixpoint rejections (e : any) (n : nat) (s : SupaFlow.t)
    : SupaFlow.t * list number :=
  match n with
  | O => (s, [])
  | S n' =>
      let r := connect JSON_parse (FetchRejected e) s in
      let '(s', delays) := rejections e n' (final r) in
      (s', scheduled (effects r) ++ delays)
  end.

End Timers.

(** Batching with [size: 0], and with [size: -1]. *)
Definition zero_batch_options : SupaFlowOptions.t :=
  SupaFlowOptions.mk None None None None None None None
    (Some (BatchConfig.mk true (Some 0) None)).

Definition negative_batch_options : SupaFlowOptions.t :=
  SupaFlowOptions.mk None None None None None None None
    (Some (BatchConfig.mk true (Some (-1)) None)).

(** Nine records with the data 1 to 9, and a tenth. *)
Definition nine_records : FetchResult :=
  open_stream 1 ["data: 1"; ""; "data: 2"; ""; "data: 3"; ""; "data: 4"; "";
                 "data: 5"; ""; "data: 6"; ""; "data: 7"; ""; "data: 8"; "";
                 "data: 9"; ""].

(** [dataHandler: failing] *)
Definition strict_options : SupaFlowOptions.t :=
  SupaFlowOptions.mk None (Some failing) None None None None None None.

Section Messages.

Variable JSON_parse : string -> option any.

(** The payload of a record: what the data handler returns on its decoded
    data. *)
Definition payloadOf (s : SupaFlow.t) (message : EventMessage.t) : any :=
  match handled s (decodeData JSON_parse message) with
  | Returns data => data
  | Throws _ => Undefined
  end.

(** What the record contributes to the effects of the message loop when
    batching is off: its payload emitted under its event name. *)
Definition messageEffects (s : SupaFlow.t) (message : EventMessage.t) : list Effect :=
  Emitted (eventName message) (payloadOf s message)
    :: dispatch s (eventName message) (payloadOf s message).

End Messages.
(** * Properties *)

(** ** The dispatcher *)

Lemma forEachHandler_run event handlers data s :
  forEachHandler event handlers data s =
  (Done tt, s, (fun h => Delivered event (EventHandler.hid h) data) <$> handlers).
Proof.
  revert s. induction handlers as [|h handlers IH]; intros s; [reflexivity|].
  cbn [forEachHandler]. unfold bind, try_catch, tell, throw, ret.
  destruct (EventHandler.hthrows h data); cbn; by rewrite IH.
Qed.

Lemma emit_run event data s :
  emit event data s = (Done tt, s, Emitted event data :: dispatch s event data).
Proof.
  unfold emit, dispatch, handlersOf, bind, tell, gets, ret.
  destruct (shouldProcessEvent s event); cbn; [|reflexivity].
  destruct (SupaFlow.eventHandlers s !! event) as [handlers|]; cbn; [|reflexivity].
  by rewrite forEachHandler_run.
Qed.

Lemma deliveries_app t1 t2 : deliveries (t1 ++ t2) = deliveries t1 ++ deliveries t2.
Proof. apply omap_app. Qed.

Lemma emissions_app t1 t2 : emissions (t1 ++ t2) = emissions t1 ++ emissions t2.
Proof. apply omap_app. Qed.

Lemma deliveries_dispatch s event data :
  deliveries (dispatch s event data) =
  if shouldProcessEvent s event
  then (fun h => (event, EventHandler.hid h, transformData s data)) <$> handlersOf s event
  else [].
Proof.
  unfold dispatch. destruct (shouldProcessEvent s event); [|reflexivity].
  induction (handlersOf s event) as [|h l IH]; [reflexivity|].
  cbn. unfold deliveries in IH. by rewrite IH.
Qed.

Lemma emissions_dispatch s event data : emissions (dispatch s event data) = [].
Proof.
  unfold dispatch. destruct (shouldProcessEvent s event); [|reflexivity].
  by induction (handlersOf s event).
Qed.

Lemma deliveries_emit s event data :
  deliveries (effects (emit event data s)) =
  if shouldProcessEvent s event
  then (fun h => (event, EventHandler.hid h, transformData s data)) <$> handlersOf s event
  else [].
Proof. rewrite emit_run. apply deliveries_dispatch. Qed.

Lemma has_length_true {A} (x : option (list A)) l :
  x = Some l -> l ≠ [] -> has_length x = true.
Proof. intros -> Hl. by destruct l. Qed.

(** C8. For a handler registered under the name of a dispatched event: with a
    non-empty include list the handler receives the event exactly when the
    name is on the list, and an event whose name is not on it reaches no
    handler at all; with no include list and a non-empty exclude list the
    handler receives it exactly when the name is not on the exclude list;
    with neither list every event is received. *)
Theorem emit_respects_filter (s : SupaFlow.t) (event : string) (data : any)
    (h : EventHandler.t) :
  h ∈ handlersOf s event ->
  let f := default EventFilter.empty
             (SupaFlowOptions.eventFilter (SupaFlow.options s)) in
  let received :=
    (event, EventHandler.hid h, transformData s data)
      ∈ deliveries (effects (emit event data s)) in
  let silent := deliveries (effects (emit event data s)) = [] in
  (∀ inc, EventFilter.include f = Some inc -> inc ≠ [] ->
     (received <-> event ∈ inc) ∧ (event ∉ inc -> silent)) ∧
  (∀ exc, has_length (EventFilter.include f) = false ->
     EventFilter.exclude f = Some exc -> exc ≠ [] ->
     (received <-> event ∉ exc) ∧ (event ∈ exc -> silent)) ∧
  (has_length (EventFilter.include f) = false ->
   has_length (EventFilter.exclude f) = false -> received).
Proof.
  intros Hh f received silent. subst received silent.
  rewrite deliveries_emit. unfold shouldProcessEvent. fold f.
  assert (Hall : (event, EventHandler.hid h, transformData s data)
                   ∈ (fun h0 => (event, EventHandler.hid h0, transformData s data))
                       <$> handlersOf s event).
  { apply list_elem_of_fmap. by exists h. }
  split; [|split].
  - intros inc Hinc Hne. rewrite (has_length_true _ _ Hinc Hne), Hinc. cbn.
    case_bool_decide as Hin; split; try tauto.
    + split; [intros Hnil; by apply not_elem_of_nil in Hnil | tauto].
  - intros exc Hno Hexc Hne. rewrite Hno, (has_length_true _ _ Hexc Hne), Hexc. cbn.
    case_bool_decide as Hin; cbn; split; try tauto.
    + split; [intros Hnil; by apply not_elem_of_nil in Hnil | tauto].
  - intros Hno1 Hno2. by rewrite Hno1, Hno2.
Qed.

Lemma emit_respects_filter_witness :
  recorder 1 ∈ handlersOf sensor_flow "humidity" ∧
  deliveries (effects (emit "humidity" (Num 40) sensor_flow)) = [].
Proof.
  assert (Hh : recorder 1 ∈ handlersOf sensor_flow "humidity").
  { vm_compute. apply list_elem_of_here. }
  split; [exact Hh|].
  destruct (emit_respects_filter sensor_flow "humidity" (Num 40) (recorder 1) Hh)
    as [Hinclude _].
  apply (Hinclude ["temperature"]); [reflexivity | discriminate |].
  intros Hin. apply list_elem_of_singleton in Hin. discriminate Hin.
Defined.

(** The two sentences of the example: with [include = ['temperature']] a
    humidity event reaches no handler while a temperature event reaches its
    handler; with [exclude = ['heartbeat']] a heartbeat reaches no handler
    while a message reaches its handler. *)
Example filter_examples :
  deliveries (effects (emit "humidity" (Num 40) sensor_flow)) = [] ∧
  deliveries (effects (emit "temperature" (Num 21) sensor_flow))
    = [("temperature", 0%nat, Num 21)] ∧
  deliveries (effects (emit "heartbeat" Null quiet_flow)) = [] ∧
  deliveries (effects (emit "message" (Str "x") quiet_flow))
    = [("message", 1%nat, Str "x")].
Proof. repeat split; vm_compute; reflexivity. Qed.

(** ** The retry policy *)








(** ** The batch aggregator *)

Lemma set_batchBuffer_same s : set_batchBuffer (SupaFlow.batchBuffer s) s = s.
Proof. by destruct s. Qed.

(** With a positive batch size and fuel above the number of pending items the
    loop ends: it cuts full batches off the front of the buffer, emits each,
    and leaves fewer than [size] items. *)
Lemma processBatch_loop_run (fuel : nat) (size : Z) (s : SupaFlow.t) :
  0 < size ->
  (length (SupaFlow.batchBuffer s) < fuel)%nat ->
  ∃ batches rest,
    processBatch_loop fuel size s =
      (Done tt, set_batchBuffer rest s, concat (batchEffects s <$> batches)) ∧
    concat batches ++ rest = SupaFlow.batchBuffer s ∧
    Forall (fun b => Z.of_nat (length b) = size) batches ∧
    Z.of_nat (length rest) < size.
Proof.
  intros Hsize. revert s.
  induction fuel as [|fuel IH]; intros s Hfuel; [lia|].
  cbn [processBatch_loop]. unfold bind at 1, gets at 1.
  destruct (Z.leb_spec size (Z.of_nat (length (SupaFlow.batchBuffer s)))) as [Hle|Hgt].
  - set (pending := SupaFlow.batchBuffer s) in *.
    set (k := Z.to_nat size).
    destruct (IH (set_batchBuffer (drop k pending) s)) as (batches & rest & Hrun & Hcat & Hall & Hrest).
    { cbn. rewrite length_drop. subst k. lia. }
    exists (take k pending :: batches), rest.
    split; [|split; [|split]].
    + unfold bind, modify. rewrite emit_run, Hrun. reflexivity.
    + cbn in Hcat. cbn. rewrite <- app_assoc, Hcat. apply take_drop.
    + constructor; [|exact Hall]. rewrite length_take. subst k. lia.
    + exact Hrest.
  - exists [], (SupaFlow.batchBuffer s). cbn.
    rewrite set_batchBuffer_same. repeat split; [constructor | lia].
Qed.

(** With a batch size of zero or less the condition of the loop never turns
    false and [splice] removes nothing: the loop outlives any fuel. *)
Lemma processBatch_loop_nonpositive (fuel : nat) (size : Z) (s : SupaFlow.t) :
  size <= 0 -> completion (processBatch_loop fuel size s) = Diverged.
Proof.
  intros Hsize. revert s. induction fuel as [|fuel IH]; intros s; [reflexivity|].
  cbn [processBatch_loop]. unfold bind at 1, gets at 1.
  destruct (Z.leb_spec size (Z.of_nat (length (SupaFlow.batchBuffer s)))); [|lia].
  unfold bind, modify. rewrite emit_run.
  specialize (IH (set_batchBuffer
                    (drop (Z.to_nat size) (SupaFlow.batchBuffer s)) s)).
  destruct (processBatch_loop fuel size _) as [[c s'] t]. exact IH.
Qed.

Lemma processBatch_run (s : SupaFlow.t) :
  0 < batchSize s ->
  ∃ batches rest,
    processBatch s =
      (Done tt, set_batchBuffer rest s, concat (batchEffects s <$> batches)) ∧
    concat batches ++ rest = SupaFlow.batchBuffer s ∧
    Forall (fun b => Z.of_nat (length b) = batchSize s) batches ∧
    Z.of_nat (length rest) < batchSize s.
Proof.
  intros Hsize. unfold processBatch, bind, gets.
  destruct (processBatch_loop_run (S (length (SupaFlow.batchBuffer s))) (batchSize s) s)
    as (batches & rest & Hrun & H); [done | lia |].
  exists batches, rest. rewrite Hrun. cbn. done.
Qed.

Lemma flushBatchBuffer_run (s : SupaFlow.t) :
  SupaFlow.batchBuffer s ≠ [] ->
  flushBatchBuffer s =
    (Done tt, set_batchBuffer [] s, batchEffects s (SupaFlow.batchBuffer s)).
Proof.
  intros Hne. unfold flushBatchBuffer, bind, gets, modify.
  destruct (SupaFlow.batchBuffer s) as [|x pending] eqn:E; [done|].
  cbn -[emit]. by rewrite emit_run.
Qed.

Lemma emissions_batchEffects s batch :
  emissions (batchEffects s batch) = [("batch", Arr batch)].
Proof. unfold batchEffects. cbn. unfold emissions in *. by rewrite (emissions_dispatch s). Qed.

Lemma deliveries_batchEffects s batch :
  deliveries (batchEffects s batch) =
  if shouldProcessEvent s "batch"
  then (fun h => ("batch", EventHandler.hid h, transformData s (Arr batch)))
         <$> handlersOf s "batch"
  else [].
Proof. unfold batchEffects. cbn. apply deliveries_dispatch. Qed.

Lemma deliveries_concat (ts : list (list Effect)) :
  deliveries (concat ts) = concat (deliveries <$> ts).
Proof.
  induction ts as [|t ts IH]; [reflexivity|].
  cbn. by rewrite deliveries_app, IH.
Qed.

Lemma deliveries_filtered_batches s (batches : list (list any)) :
  shouldProcessEvent s "batch" = false ->
  deliveries (concat (batchEffects s <$> batches)) = [].
Proof.
  intros Hno. rewrite deliveries_concat.
  induction batches as [|b batches IH]; [reflexivity|].
  cbn [fmap list_fmap concat]. cbn [fmap] in IH. rewrite IH.
  rewrite deliveries_batchEffects, Hno. reflexivity.
Qed.

(** C7. Flushing a batch buffer that is not empty and holds fewer items than
    the batch size returns normally after exactly one call of [emit], for the
    event [batch] and with all pending items in their order of insertion as
    its payload; afterwards the batch buffer is empty. When the filter lets
    the name [batch] pass, each handler registered for it receives that one
    payload, transformed, once. *)
Theorem flushBatchBuffer_emits_one_batch (s : SupaFlow.t) :
  getBatchBuffer s ≠ [] ->
  Z.of_nat (length (getBatchBuffer s)) < batchSize s ->
  let r := flushBatchBuffer s in
  completion r = Done tt ∧
  emissions (effects r) = [("batch", Arr (getBatchBuffer s))] ∧
  getBatchBuffer (final r) = [] ∧
  (shouldProcessEvent s "batch" = true ->
   deliveries (effects r) =
     (fun h => ("batch", EventHandler.hid h, transformData s (Arr (getBatchBuffer s))))
       <$> handlersOf s "batch").
Proof.
  intros Hne _ r. subst r. unfold getBatchBuffer in *.
  rewrite (flushBatchBuffer_run s Hne). cbn [completion effects final fst snd].
  split; [reflexivity|]. split; [apply emissions_batchEffects|].
  split; [reflexivity|].
  intros Hpass. by rewrite deliveries_batchEffects, Hpass.
Qed.

Lemma flushBatchBuffer_emits_one_batch_witness :
  getBatchBuffer batching_reading = [Str "a"; Str "b"; Str "c"] ∧
  emissions (effects (flushBatchBuffer batching_reading))
    = [("batch", Arr [Str "a"; Str "b"; Str "c"])] ∧
  deliveries (effects (flushBatchBuffer batching_reading))
    = [("batch", 0%nat, Arr [Str "a"; Str "b"; Str "c"])] ∧
  getBatchBuffer (final (flushBatchBuffer batching_reading)) = [].
Proof.
  assert (Hpending : getBatchBuffer batching_reading = [Str "a"; Str "b"; Str "c"])
    by (vm_compute; reflexivity).
  destruct (flushBatchBuffer_emits_one_batch batching_reading)
    as (_ & Hemit & Hempty & Hdeliver).
  - rewrite Hpending. discriminate.
  - vm_compute. reflexivity.
  - rewrite Hpending in Hemit, Hdeliver.
    split; [exact Hpending|]. split; [exact Hemit|].
    split; [|exact Hempty]. rewrite Hdeliver by reflexivity.
    vm_compute. reflexivity.
Defined.

(** C10. Batches go through [emit] like every other event. A flush empties
    the batch buffer and has the effects of one [emit] of the event [batch];
    [processBatch], for a positive batch size, returns after cutting full
    batches off the front of the buffer, leaving fewer items than the batch
    size, with the effects of one [emit] per batch. In both cases the items
    leave the buffer whatever the filter says, so when the filter rejects
    the name [batch] they are removed and no handler receives them. *)
Theorem batch_delivery_goes_through_emit (s : SupaFlow.t) :
  (getBatchBuffer s ≠ [] ->
   getBatchBuffer (final (flushBatchBuffer s)) = [] ∧
   effects (flushBatchBuffer s) = effects (emit "batch" (Arr (getBatchBuffer s)) s) ∧
   (shouldProcessEvent s "batch" = true ->
    deliveries (effects (flushBatchBuffer s)) =
      (fun h => ("batch", EventHandler.hid h, transformData s (Arr (getBatchBuffer s))))
        <$> handlersOf s "batch") ∧
   (shouldProcessEvent s "batch" = false ->
    deliveries (effects (flushBatchBuffer s)) = [])) ∧
  (0 < batchSize s ->
   ∃ batches,
     completion (processBatch s) = Done tt ∧
     concat batches ++ getBatchBuffer (final (processBatch s)) = getBatchBuffer s ∧
     Forall (fun b => Z.of_nat (length b) = batchSize s) batches ∧
     Z.of_nat (length (getBatchBuffer (final (processBatch s)))) < batchSize s ∧
     effects (processBatch s) =
       concat ((fun b => effects (emit "batch" (Arr b) s)) <$> batches) ∧
     (shouldProcessEvent s "batch" = false ->
      deliveries (effects (processBatch s)) = [])).
Proof.
  unfold getBatchBuffer. split.
  - intros Hne. rewrite (flushBatchBuffer_run s Hne), emit_run.
    cbn [completion effects final fst snd].
    split; [reflexivity|]. split; [reflexivity|].
    rewrite deliveries_batchEffects.
    split; intros ->; reflexivity.
  - intros Hsize.
    destruct (processBatch_run s Hsize) as (batches & rest & Hrun & Hcat & Hall & Hrest).
    exists batches. rewrite Hrun. cbn [completion effects final fst snd].
    split; [reflexivity|]. split; [exact Hcat|]. split; [exact Hall|].
    split; [exact Hrest|]. split.
    + f_equal. apply list_fmap_ext. intros _ b _. by rewrite emit_run.
    + intros Hno. by apply deliveries_filtered_batches.
Qed.

Lemma batch_delivery_goes_through_emit_witness :
  getBatchBuffer paired_reading = [Str "c"] ∧
  getBatchBuffer (final (flushBatchBuffer paired_reading)) = [] ∧
  deliveries (effects (flushBatchBuffer paired_reading)) = [] ∧
  completion (processBatch paired_reading) = Done tt ∧
  deliveries (effects (processBatch paired_reading)) = [].
Proof.
  assert (Hpending : getBatchBuffer paired_reading = [Str "c"])
    by (vm_compute; reflexivity).
  destruct (batch_delivery_goes_through_emit paired_reading) as [Hflush Hprocess].
  destruct Hflush as (Hempty & _ & _ & Hsilent); [rewrite Hpending; discriminate|].
  destruct Hprocess as (batches & Hdone & _ & _ & _ & _ & Hquiet); [reflexivity|].
  split; [exact Hpending|]. split; [exact Hempty|].
  split; [apply Hsilent; reflexivity|].
  split; [exact Hdone|]. apply Hquiet. reflexivity.
Defined.

(** The instance that batches by pairs and filters the batch event out, while
    it reads three records: the first two leave the batch buffer as one batch
    that no handler receives, the third is still pending. *)
Example batch_filtered_while_reading :
  emissions (effects (connect not_json three_records paired_flow))
    = [("message", Str "a"); ("batch", Arr [Str "a"; Str "b"]);
       ("message", Str "b"); ("message", Str "c")] ∧
  deliveries (effects (connect not_json three_records paired_flow)) = [] ∧
  getBatchBuffer paired_reading = [Str "c"].
Proof. repeat split; vm_compute; reflexivity. Qed.

(** ** Rules for relations maintained by a computation *)

Section Preserves.
Context (R : relation SupaFlow.t) `{!PreOrder R}.

Lemma preserves_ret {A} (a : A) : preserves R (ret a).
Proof. intros s. reflexivity. Qed.

Lemma preserves_gets {A} (f : SupaFlow.t -> A) : preserves R (gets f).
Proof. intros s. reflexivity. Qed.

Lemma preserves_tell e : preserves R (tell e).
Proof. intros s. reflexivity. Qed.

Lemma preserves_throw {A} e : preserves R (@throw A e).
Proof. intros s. reflexivity. Qed.

Lemma preserves_suspend {A} : preserves R (@suspend A).
Proof. intros s. reflexivity. Qed.

Lemma preserves_diverge {A} : preserves R (@diverge A).
Proof. intros s. reflexivity. Qed.

Lemma preserves_call {A} (r : Result A) : preserves R (call r).
Proof. destruct r; intros s; reflexivity. Qed.

Lemma preserves_modify f : (∀ s, R s (f s)) -> preserves R (modify f).
Proof. intros Hf s. apply Hf. Qed.

Lemma preserves_bind {A B} (m : M A) (f : A -> M B) :
  preserves R m -> (∀ a, preserves R (f a)) -> preserves R (bind m f).
Proof.
  intros Hm Hf s. unfold bind. specialize (Hm s).
  destruct (m s) as [[[a| | |] s1] t1]; try exact Hm.
  specialize (Hf a s1). destruct (f a s1) as [[c s2] t2].
  etrans; [exact Hm | exact Hf].
Qed.

Lemma preserves_try_catch {A} (body : M A) (handler : Thrown -> M A) :
  preserves R body -> (∀ e, preserves R (handler e)) ->
  preserves R (try_catch body handler).
Proof.
  intros Hm Hh s. unfold try_catch. specialize (Hm s).
  destruct (body s) as [[[a|e| |] s1] t1]; try exact Hm.
  specialize (Hh e s1). destruct (handler e s1) as [[c s2] t2].
  etrans; [exact Hm | exact Hh].
Qed.
End Preserves.

Global Instance same_preorder {B} (f : SupaFlow.t -> B) : PreOrder (same f).
Proof.
  split; [intros s; reflexivity|].
  intros s1 s2 s3 H12 H23. unfold same in *. congruence.
Qed.

Global Instance keeps_capacity_preorder : PreOrder keeps_capacity.
Proof.
  split; [intros s; split; auto|].
  intros s1 s2 s3 [Ho12 H12] [Ho23 H23]. split; [congruence|]. auto.
Qed.

(** Splits a goal [preserves R m] along the structure of [m]; what is left
    are the state updates, to be checked against [R]. *)
Ltac preserving :=
  repeat match goal with
    | |- preserves ?R (ret _) => apply (preserves_ret R)
    | |- preserves ?R (gets _) => apply (preserves_gets R)
    | |- preserves ?R (tell _) => apply (preserves_tell R)
    | |- preserves ?R (throw _) => apply (preserves_throw R)
    | |- preserves ?R suspend => apply (preserves_suspend R)
    | |- preserves ?R diverge => apply (preserves_diverge R)
    | |- preserves ?R (call _) => apply (preserves_call R)
    | |- preserves ?R (bind _ _) => apply (preserves_bind R); [|intros ?]
    | |- preserves ?R (try_catch _ _) => apply (preserves_try_catch R); [|intros ?]
    | |- preserves ?R (modify _) => apply (preserves_modify R); intros ?
    | |- preserves _ (if ?b then _ else _) => destruct b
    | |- preserves _ (match ?x with _ => _ end) => destruct x
    end.

Global Instance same_options_inert : Inert (same SupaFlow.options).
Proof. by split. Qed.
Global Instance same_retryCount_inert : Inert (same SupaFlow.retryCount).
Proof. by split. Qed.
Global Instance same_connectionState_inert : Inert (same SupaFlow.connectionState).
Proof. by split. Qed.
Global Instance same_buffer_inert : Inert (same SupaFlow.buffer).
Proof. by split. Qed.
Global Instance keeps_capacity_inert : Inert keeps_capacity.
Proof. by split. Qed.

Section Frames.
Context (R : relation SupaFlow.t) `{!PreOrder R} `{!Inert R}.

Lemma emit_preserves event data : preserves R (emit event data).
Proof. intros s. rewrite emit_run. reflexivity. Qed.

Lemma processBatch_loop_preserves fuel size : preserves R (processBatch_loop fuel size).
Proof.
  induction fuel as [|fuel IH]; cbn [processBatch_loop]; preserving.
  - apply inert_batchBuffer.
  - apply emit_preserves.
  - apply IH.
Qed.

Lemma processBatch_preserves : preserves R processBatch.
Proof. unfold processBatch. preserving. apply processBatch_loop_preserves. Qed.

Lemma parseLines_preserves lines message messages :
  preserves R (parseLines lines message messages).
Proof.
  revert message messages.
  induction lines as [|line lines IH]; intros message messages;
    cbn [parseLines]; preserving; try apply IH.
  apply inert_lastEventId.
Qed.

Lemma parseEventStream_preserves chunk : preserves R (parseEventStream chunk).
Proof.
  unfold parseEventStream. preserving; try apply inert_messageBuffer.
  apply parseLines_preserves.
Qed.

Lemma applyDataHandler_preserves parsedData :
  preserves R (applyDataHandler parsedData).
Proof. unfold applyDataHandler. preserving. Qed.

Lemma collectBatch_preserves parsedData : preserves R (collectBatch parsedData).
Proof.
  unfold collectBatch. preserving;
    first [ apply inert_batchBuffer | apply processBatch_preserves ].
Qed.

Context (JSON_parse : string -> option any).
Hypothesis pushBuffer_preserves : ∀ entry, preserves R (pushBuffer entry).

Lemma processMessage_preserves now message :
  preserves R (processMessage JSON_parse now message).
Proof.
  unfold processMessage. preserving;
    first [ apply inert_lastMessageTime | apply applyDataHandler_preserves
          | apply collectBatch_preserves | apply emit_preserves
          | apply pushBuffer_preserves ].
Qed.

Lemma processMessages_preserves now messages :
  preserves R (processMessages JSON_parse now messages).
Proof.
  induction messages as [|message messages IH]; cbn [processMessages]; preserving.
  - apply processMessage_preserves.
  - apply IH.
Qed.

Lemma readLoop_preserves reads ending :
  preserves R (readLoop JSON_parse reads ending).
Proof.
  induction reads as [|[now value] reads IH]; cbn [readLoop]; preserving;
    first [ apply parseEventStream_preserves
          | apply processMessages_preserves
          | apply IH ].
Qed.
End Frames.

(** ** The bounded history *)

Lemma bind_Done_inv {A B} (m : M A) (f : A -> M B) s b s' t :
  bind m f s = (Done b, s', t) ->
  ∃ a s1 t1 t2, m s = (Done a, s1, t1) ∧ f a s1 = (Done b, s', t2) ∧ t = t1 ++ t2.
Proof.
  unfold bind. destruct (m s) as [[[a| | |] s1] t1]; try discriminate.
  destruct (f a s1) as [[c s2] t2] eqn:Hf. intros [= -> -> <-].
  by exists a, s1, t1, t2.
Qed.

Lemma pushBuffer_run entry s :
  pushBuffer entry s =
  (Done tt, set_buffer (shiftOver (bufferCapacity s) (SupaFlow.buffer s ++ [entry])) s, []).
Proof.
  unfold pushBuffer, shiftOver, bind, modify, gets, ret. cbn.
  change (bufferCapacity (set_buffer (SupaFlow.buffer s ++ [entry]) s))
    with (bufferCapacity s).
  by destruct (bufferCapacity s <? Z.of_nat (length (SupaFlow.buffer s ++ [entry]))).
Qed.

Lemma shiftOver_lastN capacity entries entry :
  (length entries <= Z.to_nat capacity)%nat ->
  shiftOver capacity (entries ++ [entry]) = lastN (Z.to_nat capacity) (entries ++ [entry]).
Proof.
  intros Hwithin. unfold shiftOver, lastN. rewrite length_app. cbn [length].
  destruct (Z.ltb_spec capacity (Z.of_nat (length entries + 1))) as [Hover|Hfits].
  - replace (length entries + 1 - Z.to_nat capacity)%nat with 1%nat by lia.
    by destruct entries.
  - replace (length entries + 1 - Z.to_nat capacity)%nat with 0%nat by lia.
    reflexivity.
Qed.

Lemma length_lastN {A} n (l : list A) : length (lastN n l) = (length l `min` n)%nat.
Proof. unfold lastN. rewrite length_drop. lia. Qed.

Lemma lastN_app_lastN {A} n (a b : list A) : lastN n (lastN n a ++ b) = lastN n (a ++ b).
Proof.
  unfold lastN. rewrite !length_app, length_drop.
  destruct (decide (length a <= n)%nat) as [Hle|Hgt].
  - replace (length a - n)%nat with 0%nat by lia. cbn [drop].
    by rewrite Nat.sub_0_r.
  - replace (length a - (length a - n) + length b - n)%nat with (length b) by lia.
    replace (length a + length b - n)%nat with ((length a - n) + length b)%nat by lia.
    rewrite <- drop_drop. rewrite (drop_app_le a) by lia. reflexivity.
Qed.

Lemma pushBuffer_keeps_capacity entry : preserves keeps_capacity (pushBuffer entry).
Proof.
  intros s. rewrite pushBuffer_run. split; [reflexivity|].
  unfold within_capacity. cbn. intros Hwithin.
  change (bufferCapacity (set_buffer _ s)) with (bufferCapacity s).
  rewrite shiftOver_lastN by exact Hwithin.
  rewrite length_lastN. lia.
Qed.

Lemma pushBuffer_same_options entry : preserves (same SupaFlow.options) (pushBuffer entry).
Proof. intros s. by rewrite pushBuffer_run. Qed.

Lemma pushBuffer_same_retryCount entry :
  preserves (same SupaFlow.retryCount) (pushBuffer entry).
Proof. intros s. by rewrite pushBuffer_run. Qed.

Lemma pushBuffer_same_connectionState entry :
  preserves (same SupaFlow.connectionState) (pushBuffer entry).
Proof. intros s. by rewrite pushBuffer_run. Qed.

Lemma applyDataHandler_done parsedData s data s' t :
  applyDataHandler parsedData s = (Done data, s', t) ->
  s' = s ∧ handled s parsedData = Returns data.
Proof.
  unfold applyDataHandler, handled, bind, gets.
  destruct (SupaFlowOptions.dataHandler (SupaFlow.options s)) as [h|]; cbn.
  - destruct (h parsedData) as [v|e]; cbn; [|discriminate].
    by intros [= -> -> _].
  - by intros [= -> -> _].
Qed.

Section History.
Context (JSON_parse : string -> option any).

(** A message that is processed to the end adds its entry to the history
    and leaves the options and the retry counter alone. *)
Lemma processMessage_done now message s s' t :
  processMessage JSON_parse now message s = (Done tt, s', t) ->
  ∃ data,
    handled s (decodeData JSON_parse message) = Returns data ∧
    SupaFlow.buffer s' =
      shiftOver (bufferCapacity s)
        (SupaFlow.buffer s ++ [entryOf now (SupaFlow.retryCount s) message data]) ∧
    SupaFlow.options s' = SupaFlow.options s ∧
    SupaFlow.retryCount s' = SupaFlow.retryCount s.
Proof.
  unfold processMessage. intros H.
  apply bind_Done_inv in H as ([] & s1 & t1 & t1' & Htime & H & _).
  injection Htime as <- _.
  apply bind_Done_inv in H as (data & s2 & t2 & t2' & Hhandler & H & _).
  apply applyDataHandler_done in Hhandler as [-> Hhandled].
  apply bind_Done_inv in H as ([] & s3 & t3 & t3' & Hbatch & H & _).
  assert (Hbuf := collectBatch_preserves (same SupaFlow.buffer) data
                    (set_lastMessageTime now s)).
  assert (Hopt := collectBatch_preserves (same SupaFlow.options) data
                    (set_lastMessageTime now s)).
  assert (Hcount := collectBatch_preserves (same SupaFlow.retryCount) data
                      (set_lastMessageTime now s)).
  rewrite Hbatch in Hbuf, Hopt, Hcount. unfold same in *. cbn in Hbuf, Hopt, Hcount.
  apply bind_Done_inv in H as ([] & s4 & t4 & t4' & Hemit & H & _).
  rewrite emit_run in Hemit. injection Hemit as <- _.
  apply bind_Done_inv in H as (n & s5 & t5 & t5' & Hget & H & _).
  injection Hget as <- <- _.
  rewrite pushBuffer_run in H. injection H as <- _.
  exists data. split; [exact Hhandled|]. cbn.
  unfold bufferCapacity. rewrite Hopt, Hbuf, Hcount. done.
Qed.
End History.

Section HistoryRuns.
Context (JSON_parse : string -> option any).

Lemma processMessages_done now messages : ∀ s s' t,
  processMessages JSON_parse now messages s = (Done tt, s', t) ->
  within_capacity s ->
  ∃ entries,
    Forall2 (fun entry message =>
               ∃ data, handled s (decodeData JSON_parse message) = Returns data ∧
                       entry = entryOf now (SupaFlow.retryCount s) message data)
            entries messages ∧
    SupaFlow.buffer s' =
      lastN (Z.to_nat (bufferCapacity s)) (SupaFlow.buffer s ++ entries).
Proof.
  induction messages as [|message messages IH]; intros s s' t Hrun Hwithin.
  - injection Hrun as <- _. exists []. split; [constructor|].
    rewrite app_nil_r. unfold lastN, within_capacity in *.
    by replace (length (SupaFlow.buffer s) - Z.to_nat (bufferCapacity s))%nat
      with 0%nat by lia.
  - cbn [processMessages] in Hrun.
    apply bind_Done_inv in Hrun as ([] & s1 & t1 & t2 & Hone & Hrest & _).
    destruct (processMessage_done _ _ _ _ _ _ Hone)
      as (data & Hdata & Hbuf & Hopt & Hcount).
    unfold within_capacity in Hwithin.
    rewrite shiftOver_lastN in Hbuf by exact Hwithin.
    assert (Hcap : bufferCapacity s1 = bufferCapacity s)
      by (unfold bufferCapacity; by rewrite Hopt).
    destruct (IH s1 s' t2 Hrest) as (entries & Hall & Hbuf').
    { unfold within_capacity. rewrite Hbuf, Hcap, length_lastN. lia. }
    exists (entryOf now (SupaFlow.retryCount s) message data :: entries).
    split.
    + constructor; [by exists data|].
      unfold handled in *. rewrite Hopt, Hcount in Hall. exact Hall.
    + rewrite Hbuf', Hcap, Hbuf, lastN_app_lastN, <- app_assoc. reflexivity.
Qed.
End HistoryRuns.

Lemma applyDataHandler_run parsedData s :
  applyDataHandler parsedData s =
  (match handled s parsedData with
   | Returns data => Done data
   | Throws e => Raised e
   end, s, []).
Proof.
  unfold applyDataHandler, handled, bind, gets.
  destruct (SupaFlowOptions.dataHandler (SupaFlow.options s)) as [h|]; cbn;
    [by destruct (h parsedData)|reflexivity].
Qed.

(** The batching step returns when batching is off or the batch size is
    positive. *)
Lemma collectBatch_returns parsedData s :
  batchConfig_enabled s = false ∨ 0 < batchSize s ->
  completion (collectBatch parsedData s) = Done tt.
Proof.
  intros Hsafe. unfold collectBatch, bind, gets.
  destruct (batchConfig_enabled s) eqn:Hon; [|reflexivity].
  destruct Hsafe as [|Hsize]; [done|].
  cbn -[processBatch].
  match goal with |- context [if ?b then _ else _] => destruct b end;
    [|reflexivity].
  set (s1 := set_batchBuffer (SupaFlow.batchBuffer s ++ [parsedData]) s).
  destruct (processBatch_run s1 Hsize) as (batches & rest & Hrun & _).
  rewrite Hrun. reflexivity.
Qed.

Section HistoryReturns.
Context (JSON_parse : string -> option any).

Lemma processMessage_returns now message s data :
  handled s (decodeData JSON_parse message) = Returns data ->
  batchConfig_enabled s = false ∨ 0 < batchSize s ->
  completion (processMessage JSON_parse now message s) = Done tt.
Proof.
  intros Hdata Hsafe. unfold processMessage.
  unfold bind at 1, modify at 1. unfold bind at 1.
  rewrite applyDataHandler_run.
  change (handled (set_lastMessageTime now s)) with (handled s). rewrite Hdata.
  unfold bind at 1.
  assert (Hbatch := collectBatch_returns data (set_lastMessageTime now s) Hsafe).
  destruct (collectBatch data (set_lastMessageTime now s)) as [[c s1] t1].
  cbn in Hbatch. subst c.
  unfold bind, gets. rewrite emit_run, pushBuffer_run. reflexivity.
Qed.

(** The message loop returns when the data handler returns on every payload
    and batching is off or the batch size is positive. *)
Lemma processMessages_returns now messages : ∀ s,
  Forall (fun message =>
            ∃ data, handled s (decodeData JSON_parse message) = Returns data)
         messages ->
  batchConfig_enabled s = false ∨ 0 < batchSize s ->
  completion (processMessages JSON_parse now messages s) = Done tt.
Proof.
  induction messages as [|message messages IH]; intros s Hall Hsafe; [reflexivity|].
  inversion Hall as [|? ? [data Hdata] Hrest]; subst.
  cbn [processMessages]. unfold bind.
  assert (Hone := processMessage_returns now message s data Hdata Hsafe).
  destruct (processMessage JSON_parse now message s) as [[c s1] t1] eqn:Hrun.
  cbn in Hone. subst c.
  destruct (processMessage_done _ _ _ _ _ _ Hrun) as (_ & _ & _ & Hopt & _).
  specialize (IH s1).
  destruct (processMessages JSON_parse now messages s1) as [[c2 s2] t2].
  cbn in *. apply IH.
  - unfold handled in *. by rewrite Hopt.
  - unfold batchConfig_enabled, batchSize in *. by rewrite Hopt.
Qed.
End HistoryReturns.

(** C6, as amended. The capacity of the history is [bufferSize || 1000]: the
    configured size, or 1000 when none or 0 is configured. A history within
    the capacity is still within it after any run of the message loop,
    however the run ends. The run processes all its messages when the data
    handler returns on each payload and batching is off or has a positive
    size; when it does, the history is the last [capacity] elements of the
    old history followed by one entry per message, in the order of the
    messages; in particular, starting from an empty history, after
    [capacity + 1] messages the first entry is gone and the others remain in
    their order. *)
Theorem history_bounded_fifo (JSON_parse : string -> option any)
    (s : SupaFlow.t) (now : Z) (messages : list EventMessage.t) :
  let capacity := Z.to_nat (bufferCapacity s) in
  let r := processMessages JSON_parse now messages s in
  (length (getBuffer s) <= capacity)%nat ->
  bufferCapacity s = or_default (SupaFlowOptions.bufferSize (SupaFlow.options s)) 1000 ∧
  (length (getBuffer (final r)) <= capacity)%nat ∧
  (Forall (fun message =>
             ∃ data, handled s (decodeData JSON_parse message) = Returns data)
          messages ->
   batchConfig_enabled s = false ∨ 0 < batchSize s ->
   completion r = Done tt) ∧
  (completion r = Done tt ->
   ∃ entries,
     Forall2 (fun entry message =>
                ∃ data, handled s (decodeData JSON_parse message) = Returns data ∧
                        entry = entryOf now (SupaFlow.retryCount s) message data)
             entries messages ∧
     getBuffer (final r) = lastN capacity (getBuffer s ++ entries) ∧
     (getBuffer s = [] -> length messages = S capacity ->
      getBuffer (final r) = tail entries)).
Proof.
  intros capacity r Hwithin. subst capacity r. unfold getBuffer in *.
  split; [reflexivity|]. split; [|split].
  - destruct (processMessages_preserves keeps_capacity JSON_parse
                pushBuffer_keeps_capacity now messages s) as [Hopt Hkeep].
    specialize (Hkeep Hwithin). unfold within_capacity, bufferCapacity in *.
    by rewrite Hopt in Hkeep.
  - apply processMessages_returns.
  - intros Hdone.
    destruct (processMessages JSON_parse now messages s) as [[c s'] t] eqn:Hrun.
    cbn in Hdone. subst c. cbn [final fst snd].
    destruct (processMessages_done _ _ _ _ _ _ Hrun Hwithin) as (entries & Hall & Hbuf).
    exists entries. split; [exact Hall|]. split; [exact Hbuf|].
    intros Hempty Hlen. rewrite Hbuf, Hempty. cbn [app]. unfold lastN.
    apply Forall2_length in Hall. rewrite Hall, Hlen.
    replace (S (Z.to_nat (bufferCapacity s)) - Z.to_nat (bufferCapacity s))%nat
      with 1%nat by lia.
    by destruct entries.
Qed.

Lemma history_bounded_fifo_witness :
  (length (getBuffer
     (final (processMessages not_json 7
               [data_message "a"; data_message "b"; data_message "c"]
               (constructor small_history_options 0)))) <= 2)%nat ∧
  completion (processMessages not_json 7
                [data_message "a"; data_message "b"; data_message "c"]
                (constructor small_history_options 0)) = Done tt.
Proof.
  destruct (history_bounded_fifo not_json (constructor small_history_options 0) 7
              [data_message "a"; data_message "b"; data_message "c"])
    as (_ & Hbound & Hreturns & _).
  - vm_compute. lia.
  - split; [exact Hbound|]. apply Hreturns.
    + repeat constructor; eexists; reflexivity.
    + left. reflexivity.
Defined.

(** With [bufferSize: 2], three records leave the entries of the second and
    the third, in that order. *)
Example history_keeps_latest :
  getBuffer
    (final (processMessages not_json 7
              [data_message "a"; data_message "b"; data_message "c"]
              (constructor small_history_options 0)))
  = [entryOf 7 0 (data_message "b") (Str "b"); entryOf 7 0 (data_message "c") (Str "c")].
Proof. vm_compute. reflexivity. Qed.

(** C6, as stated, fails for a configured size of 0, which [||] takes for no
    size at all: one record received on an instance built with
    [bufferSize: 0] leaves one entry in the history. *)
Lemma history_exceeds_bufferSize_zero :
  SupaFlowOptions.bufferSize (SupaFlow.options (constructor zero_size_options 0)) = Some 0 ∧
  ¬ (Z.of_nat (length (getBuffer
        (final (connect not_json (open_stream 1 ["data: x"; ""])
                  (constructor zero_size_options 0))))) <= 0).
Proof. split; [reflexivity|]. vm_compute. intros H. apply H. reflexivity. Qed.

(** ** One connection attempt, step by step *)

Lemma handleHeartbeat_run s :
  handleHeartbeat s = (Done tt, final (handleHeartbeat s), []).
Proof.
  unfold handleHeartbeat, bind, gets.
  destruct (SupaFlowOptions.heartbeat (SupaFlow.options s)) as [[[] ? ?]|]; reflexivity.
Qed.

Lemma handleHeartbeat_preserves (R : relation SupaFlow.t) `{!PreOrder R} :
  (∀ s v, R s (set_heartbeatInterval v s)) -> preserves R handleHeartbeat.
Proof. intros Hinert. unfold handleHeartbeat. preserving. apply Hinert. Qed.

Lemma accepted_retryCount s : SupaFlow.retryCount (accepted s) = 0%nat.
Proof.
  unfold accepted.
  by rewrite (handleHeartbeat_preserves (same SupaFlow.retryCount)).
Qed.

Lemma accepted_connectionState s : SupaFlow.connectionState (accepted s) = CONNECTING.
Proof.
  unfold accepted.
  by rewrite (handleHeartbeat_preserves (same SupaFlow.connectionState)).
Qed.

Lemma accepted_options s : SupaFlow.options (accepted s) = SupaFlow.options s.
Proof.
  unfold accepted.
  by rewrite (handleHeartbeat_preserves (same SupaFlow.options)).
Qed.

(** The [catch] block, case by case. *)
Lemma recover_run error s :
  recover error s =
  match error with
  | ThrownSupaFlowError _ =>
      (Raised error, set_connectionState ERROR s, [StateChanged ERROR])
  | ThrownOther original =>
      if maxRetries s <=? Z.of_nat (SupaFlow.retryCount s) then
        (Raised (maxRetriesExceeded (SupaFlow.retryCount s)),
         set_connectionState ERROR s, [StateChanged ERROR])
      else if autoReconnect s then
        (Done tt,
         set_retryCount (S (SupaFlow.retryCount s)) (set_connectionState ERROR s),
         [StateChanged ERROR;
          ReconnectScheduled
            (calculateRetryDelay (set_retryCount (S (SupaFlow.retryCount s)) s))])
      else
        (Raised (unknownError original),
         set_retryCount (S (SupaFlow.retryCount s)) (set_connectionState ERROR s),
         [StateChanged ERROR])
  end.
Proof.
  unfold recover, bind, setState, modify, tell, gets, throw. cbn.
  destruct error as [e|original]; [reflexivity|].
  change (maxRetries (set_connectionState ERROR s)) with (maxRetries s).
  change (SupaFlow.retryCount (set_connectionState ERROR s))
    with (SupaFlow.retryCount s).
  destruct (maxRetries s <=? Z.of_nat (SupaFlow.retryCount s)); cbn; [reflexivity|].
  change (autoReconnect (set_retryCount _ (set_connectionState ERROR s)))
    with (autoReconnect s).
  destruct (autoReconnect s); reflexivity.
Qed.

(** [connect] is the [try] block run on the entered instance, followed by the
    [catch] block when it threw. *)
Lemma connect_run JSON_parse response s :
  connect JSON_parse response s =
  match attempt JSON_parse response (entering s) with
  | (Raised error, s1, t1) =>
      let '(c, s2, t2) := recover error s1 in
      (c, s2, StateChanged CONNECTING :: t1 ++ t2)
  | (c, s1, t1) => (c, s1, StateChanged CONNECTING :: t1)
  end.
Proof.
  unfold connect, bind, setState, modify, tell, try_catch, entering.
  cbn -[recover attempt].
  destruct (attempt JSON_parse response _) as [[[[]|e| |] s1] t1]; try reflexivity.
  by destruct (recover e s1) as [[c s2] t2].
Qed.

(** The [try] block of an accepted connection: the read loop run on the
    accepted instance, followed, when the stream has ended, by the
    scheduling of the reconnection and the move to CONNECTED. *)
Lemma attempt_accepted JSON_parse status statusText reads ending s :
  attempt JSON_parse (Response true status statusText (Some (reads, ending))) (entering s) =
  match readLoop JSON_parse reads ending (accepted s) with
  | (Done tt, s1, t1) =>
      (Done tt, set_connectionState CONNECTED s1,
       t1 ++ (if autoReconnect s1
              then [ReconnectScheduled (calculateRetryDelay s1)] else [])
          ++ [StateChanged CONNECTED])
  | other => other
  end.
Proof.
  unfold attempt. cbn [negb]. unfold bind at 1, modify at 1.
  unfold bind at 1. rewrite handleHeartbeat_run.
  change (final (handleHeartbeat (set_retryCount 0 (entering s)))) with (accepted s).
  unfold bind at 1.
  destruct (readLoop JSON_parse reads ending (accepted s)) as [[[[]|e| |] s1] t1];
    try reflexivity.
  unfold bind, gets, setState, modify, tell, ret.
  destruct (autoReconnect s1); reflexivity.
Qed.

Lemma readLoop_pending_never_returns JSON_parse reads : ∀ s,
  completion (readLoop JSON_parse reads ReadPending s) ≠ Done tt.
Proof.
  induction reads as [|[now value] reads IH]; intros s; [discriminate|].
  cbn [readLoop]. unfold bind at 1.
  match goal with |- context [match ?m s with _ => _ end] =>
    destruct (m s) as [[[[]| | |] s1] t1] end; try discriminate.
  specialize (IH s1).
  destruct (readLoop JSON_parse reads ReadPending s1) as [[c s2] t2]. exact IH.
Qed.

Lemma recover_never_suspends error s : completion (recover error s) ≠ Suspended.
Proof.
  rewrite recover_run. destruct error; [discriminate|].
  destruct (maxRetries s <=? _); [discriminate|].
  destruct (autoReconnect s); discriminate.
Qed.

(** ** The state while the stream is read *)

(** C3, on the code. Whenever [connect] is suspended in its read loop,
    waiting for the next chunk of an accepted connection, [getState] answers
    CONNECTING, not CONNECTED: the move to CONNECTED comes after the loop. *)
Theorem reading_state_is_CONNECTING (JSON_parse : string -> option any)
    (status : Z) (statusText : string) (reads : list ReadResult) (s : SupaFlow.t) :
  let r := connect JSON_parse
             (Response true status statusText (Some (reads, ReadPending))) s in
  completion r = Suspended ->
  getState (final r) = CONNECTING ∧ getState (final r) ≠ CONNECTED.
Proof.
  intros r. subst r. rewrite connect_run, attempt_accepted.
  assert (Hloop := readLoop_preserves (same SupaFlow.connectionState) JSON_parse
                     pushBuffer_same_connectionState reads ReadPending (accepted s)).
  assert (Hnot := readLoop_pending_never_returns JSON_parse reads (accepted s)).
  destruct (readLoop JSON_parse reads ReadPending (accepted s)) as [[[[]|e| |] s1] t1].
  - by destruct Hnot.
  - assert (Hrec := recover_never_suspends e s1).
    destruct (recover e s1) as [[c s2] t2]. intros Hc. by destruct Hrec.
  - intros _. unfold same in Hloop. cbn in Hloop. unfold getState. cbn.
    rewrite Hloop, accepted_connectionState. done.
  - discriminate.
Qed.

Lemma reading_state_is_CONNECTING_witness :
  emissions (effects (connect not_json (open_stream 1 ["data: x"; ""])
                        (constructor SupaFlowOptions.none 0)))
    = [("message", Str "x")] ∧
  getState (final (connect not_json (open_stream 1 ["data: x"; ""])
                     (constructor SupaFlowOptions.none 0))) = CONNECTING.
Proof.
  split; [vm_compute; reflexivity|].
  apply (reading_state_is_CONNECTING not_json 200 "OK"
           [Chunk 1 (Some (text_of_lines ["data: x"; ""]))]
           (constructor SupaFlowOptions.none 0)).
  vm_compute. reflexivity.
Defined.

(** The move to CONNECTED comes when the stream has ended, after the
    reconnection has been scheduled. *)
Example state_after_stream_end :
  effects (connect not_json (ended_stream 1 ["data: x"; ""])
             (constructor SupaFlowOptions.none 0))
    = [StateChanged CONNECTING; Emitted "message" (Str "x");
       ReconnectScheduled (Finite 1000); StateChanged CONNECTED] ∧
  getState (final (connect not_json (ended_stream 1 ["data: x"; ""])
                     (constructor SupaFlowOptions.none 0))) = CONNECTED.
Proof. split; vm_compute; reflexivity. Qed.

(** ** The retry counter and the failures of a connection attempt *)

Lemma attempt_same_options JSON_parse response :
  preserves (same SupaFlow.options) (attempt JSON_parse response).
Proof.
  unfold attempt, setState. preserving;
    first [ reflexivity
          | by apply (handleHeartbeat_preserves (same SupaFlow.options))
          | apply (readLoop_preserves _ _ pushBuffer_same_options) ].
Qed.

Lemma connect_rejected JSON_parse e s :
  connect JSON_parse (FetchRejected e) s =
  let '(c, s2, t2) := recover (ThrownOther e) (entering s) in
  (c, s2, StateChanged CONNECTING :: t2).
Proof. rewrite connect_run. reflexivity. Qed.

Lemma connect_not_ok JSON_parse status statusText body s :
  connect JSON_parse (Response false status statusText body) s =
  (Raised (connectionError status statusText),
   set_connectionState ERROR (entering s),
   [StateChanged CONNECTING; StateChanged ERROR]).
Proof. rewrite connect_run. reflexivity. Qed.

Lemma connect_null_body JSON_parse status statusText s :
  connect JSON_parse (Response true status statusText None) s =
  (Raised invalidResponse,
   set_connectionState ERROR (entering s),
   [StateChanged CONNECTING; StateChanged ERROR]).
Proof. rewrite connect_run. reflexivity. Qed.

(** C4, as amended. The counter is zero from the moment a connection is
    accepted, before anything is read; after the call it is still zero,
    unless the read loop threw something other than a [SupaFlowError], which
    counts as one failure. A rejected fetch adds one while the counter is
    below [maxRetries], with [autoReconnect] on or off. A response with an
    error status, a response without body and a fetch that has not settled
    leave the counter as it was. *)
Theorem retryCount_after_connect (JSON_parse : string -> option any) (s : SupaFlow.t) :
  (∀ status statusText reads ending,
     SupaFlow.retryCount (accepted s) = 0%nat ∧
     SupaFlow.retryCount
       (final (connect JSON_parse
                 (Response true status statusText (Some (reads, ending))) s)) =
       match completion (readLoop JSON_parse reads ending (accepted s)) with
       | Raised (ThrownOther _) => if maxRetries s <=? 0 then 0%nat else 1%nat
       | _ => 0%nat
       end) ∧
  (∀ e,
     SupaFlow.retryCount (final (connect JSON_parse (FetchRejected e) s)) =
       if maxRetries s <=? Z.of_nat (SupaFlow.retryCount s)
       then SupaFlow.retryCount s else S (SupaFlow.retryCount s)) ∧
  (∀ status statusText body,
     SupaFlow.retryCount
       (final (connect JSON_parse (Response false status statusText body) s)) =
       SupaFlow.retryCount s) ∧
  (∀ status statusText,
     SupaFlow.retryCount
       (final (connect JSON_parse (Response true status statusText None) s)) =
       SupaFlow.retryCount s) ∧
  SupaFlow.retryCount (final (connect JSON_parse FetchPending s)) =
    SupaFlow.retryCount s.
Proof.
  split; [|split; [|split; [|split]]].
  - intros status statusText reads ending. split; [apply accepted_retryCount|].
    rewrite connect_run, attempt_accepted.
    assert (Hcount := readLoop_preserves (same SupaFlow.retryCount) JSON_parse
                        pushBuffer_same_retryCount reads ending (accepted s)).
    assert (Hopt := readLoop_preserves (same SupaFlow.options) JSON_parse
                      pushBuffer_same_options reads ending (accepted s)).
    destruct (readLoop JSON_parse reads ending (accepted s)) as [[c s1] t1].
    unfold same in Hcount, Hopt. cbn in Hcount, Hopt.
    rewrite accepted_retryCount in Hcount. rewrite accepted_options in Hopt.
    destruct c as [[]|[e|e]| |]; cbn -[recover]; try exact Hcount;
      rewrite recover_run; try exact Hcount.
    assert (Hmax : maxRetries s1 = maxRetries s) by (unfold maxRetries; by rewrite Hopt).
    rewrite Hcount, Hmax. change (Z.of_nat 0) with 0.
    destruct (maxRetries s <=? 0); [exact Hcount|].
    by destruct (autoReconnect s1).
  - intros e. rewrite connect_rejected, recover_run.
    change (maxRetries (entering s)) with (maxRetries s).
    change (SupaFlow.retryCount (entering s)) with (SupaFlow.retryCount s).
    change (autoReconnect (entering s)) with (autoReconnect s).
    destruct (maxRetries s <=? Z.of_nat (SupaFlow.retryCount s)); [reflexivity|].
    destruct (autoReconnect s); reflexivity.
  - intros. by rewrite connect_not_ok.
  - intros. by rewrite connect_null_body.
  - by rewrite connect_run.
Qed.

(** C4, as stated, fails on both counts. After two rejected fetches the
    counter is 2; an accepted connection whose stream has delivered nothing
    puts it back to 0, with no record received. And with
    [autoReconnect: false] a rejected fetch still counts: the counter goes
    to 1 while the call raises UNKNOWN_ERROR. *)
Lemma retryCount_reset_without_data :
  SupaFlow.retryCount failed_twice = 2%nat ∧
  emissions (effects (connect not_json silent_stream failed_twice)) = [] ∧
  getBuffer (final (connect not_json silent_stream failed_twice)) = [] ∧
  SupaFlow.retryCount (final (connect not_json silent_stream failed_twice)) = 0%nat ∧
  autoReconnect (constructor manual_options 0) = false ∧
  completion (connect not_json (FetchRejected (Str "network"))
                (constructor manual_options 0))
    = Raised (unknownError (Str "network")) ∧
  SupaFlow.retryCount
    (final (connect not_json (FetchRejected (Str "network"))
              (constructor manual_options 0))) = 1%nat.
Proof. repeat split; vm_compute; reflexivity. Qed.

(** C2, as amended. With auto-reconnect enabled: when the [try] block of
    [connect] throws something that is not a [SupaFlowError] (a rejected
    fetch, a failed read, such an exception of the data handler) while the
    counter is below [maxRetries], [connect] returns normally, the counter
    goes up by one and one reconnection is scheduled, with the delay computed
    from the new counter; a rejected fetch is such a failure. When the block
    throws a [SupaFlowError], [connect] throws it on to its caller, schedules
    nothing and leaves the counter alone; a response with an error status
    (CONNECTION_ERROR) and a response without body (INVALID_RESPONSE) are
    such failures. *)
Theorem connect_failures (JSON_parse : string -> option any) (s : SupaFlow.t) :
  autoReconnect s = true ->
  (∀ response original s1 t1,
     attempt JSON_parse response (entering s) = (Raised (ThrownOther original), s1, t1) ->
     Z.of_nat (SupaFlow.retryCount s1) < maxRetries s ->
     connect JSON_parse response s =
       (Done tt,
        set_retryCount (S (SupaFlow.retryCount s1)) (set_connectionState ERROR s1),
        StateChanged CONNECTING :: t1 ++
          [StateChanged ERROR;
           ReconnectScheduled
             (calculateRetryDelay (set_retryCount (S (SupaFlow.retryCount s1)) s))])) ∧
  (∀ e, Z.of_nat (SupaFlow.retryCount s) < maxRetries s ->
     connect JSON_parse (FetchRejected e) s =
       (Done tt,
        set_retryCount (S (SupaFlow.retryCount s))
          (set_connectionState ERROR (entering s)),
        [StateChanged CONNECTING; StateChanged ERROR;
         ReconnectScheduled
           (calculateRetryDelay (set_retryCount (S (SupaFlow.retryCount s)) s))])) ∧
  (∀ response e s1 t1,
     attempt JSON_parse response (entering s)
       = (Raised (ThrownSupaFlowError e), s1, t1) ->
     connect JSON_parse response s =
       (Raised (ThrownSupaFlowError e), set_connectionState ERROR s1,
        StateChanged CONNECTING :: t1 ++ [StateChanged ERROR])) ∧
  (∀ status statusText body,
     connect JSON_parse (Response false status statusText body) s =
       (Raised (connectionError status statusText),
        set_connectionState ERROR (entering s),
        [StateChanged CONNECTING; StateChanged ERROR])) ∧
  (∀ status statusText,
     connect JSON_parse (Response true status statusText None) s =
       (Raised invalidResponse,
        set_connectionState ERROR (entering s),
        [StateChanged CONNECTING; StateChanged ERROR])).
Proof.
  intros Hauto.
  assert (Habsorb : ∀ response original s1 t1,
     attempt JSON_parse response (entering s) = (Raised (ThrownOther original), s1, t1) ->
     Z.of_nat (SupaFlow.retryCount s1) < maxRetries s ->
     connect JSON_parse response s =
       (Done tt,
        set_retryCount (S (SupaFlow.retryCount s1)) (set_connectionState ERROR s1),
        StateChanged CONNECTING :: t1 ++
          [StateChanged ERROR;
           ReconnectScheduled
             (calculateRetryDelay (set_retryCount (S (SupaFlow.retryCount s1)) s))])).
  { intros response original s1 t1 Hthrown Hbudget.
    assert (Hopt := attempt_same_options JSON_parse response (entering s)).
    rewrite Hthrown in Hopt. unfold same in Hopt. cbn in Hopt.
    rewrite connect_run, Hthrown, recover_run.
    assert (Hmax : maxRetries s1 = maxRetries s) by (unfold maxRetries; by rewrite Hopt).
    assert (Hauto1 : autoReconnect s1 = true) by (unfold autoReconnect; by rewrite Hopt).
    rewrite Hmax, Hauto1.
    destruct (Z.leb_spec (maxRetries s) (Z.of_nat (SupaFlow.retryCount s1))); [lia|].
    unfold calculateRetryDelay. cbn. by rewrite Hopt. }
  split; [exact Habsorb|]. split; [|split; [|split]].
  - intros e Hbudget. by rewrite (Habsorb (FetchRejected e) e (entering s) []).
  - intros response e s1 t1 Hthrown. by rewrite connect_run, Hthrown, recover_run.
  - intros. apply connect_not_ok.
  - intros. apply connect_null_body.
Qed.

Lemma connect_failures_witness :
  completion (connect not_json (FetchRejected (Str "network"))
                (constructor SupaFlowOptions.none 0)) = Done tt ∧
  scheduled (effects (connect not_json (FetchRejected (Str "network"))
                        (constructor SupaFlowOptions.none 0))) = [Finite 2000].
Proof.
  destruct (connect_failures not_json (constructor SupaFlowOptions.none 0))
    as (_ & Hrejected & _); [reflexivity|].
  rewrite (Hrejected (Str "network")) by (vm_compute; reflexivity).
  split; reflexivity.
Defined.

(** C2, as stated, fails for the structured errors: on a fresh instance with
    the default options, where auto-reconnect is on and no retry has been
    used, a response with status 500 and a response without body both make
    [connect] throw to its caller; nothing is scheduled and the counter
    stays at 0. *)
Lemma structured_errors_reach_the_caller :
  autoReconnect (constructor SupaFlowOptions.none 0) = true ∧
  Z.of_nat (SupaFlow.retryCount (constructor SupaFlowOptions.none 0))
    < maxRetries (constructor SupaFlowOptions.none 0) ∧
  completion (connect not_json (Response false 500 "Internal Server Error" None)
                (constructor SupaFlowOptions.none 0))
    = Raised (connectionError 500 "Internal Server Error") ∧
  scheduled (effects (connect not_json (Response false 500 "Internal Server Error" None)
                        (constructor SupaFlowOptions.none 0))) = [] ∧
  SupaFlow.retryCount
    (final (connect not_json (Response false 500 "Internal Server Error" None)
              (constructor SupaFlowOptions.none 0))) = 0%nat ∧
  completion (connect not_json (Response true 200 "OK" None)
                (constructor SupaFlowOptions.none 0))
    = Raised invalidResponse ∧
  scheduled (effects (connect not_json (Response true 200 "OK" None)
                        (constructor SupaFlowOptions.none 0))) = [] ∧
  SupaFlow.retryCount
    (final (connect not_json (Response true 200 "OK" None)
              (constructor SupaFlowOptions.none 0))) = 0%nat.
Proof. repeat split; vm_compute; reflexivity. Qed.

(** ** The frame parser *)

Lemma calculateRetryDelay_depends s s' :
  SupaFlow.options s' = SupaFlow.options s ->
  SupaFlow.retryCount s' = SupaFlow.retryCount s ->
  calculateRetryDelay s' = calculateRetryDelay s.
Proof. unfold calculateRetryDelay. by intros -> ->. Qed.

Lemma ret_bind {A B} (a : A) (f : A -> M B) s : bind (ret a) f s = f a s.
Proof. unfold bind, ret. by destruct (f a s) as [[c s'] t]. Qed.

Lemma indexOf_nonempty c line i : indexOf c line = Some i -> String.eqb line "" = false.
Proof. by destruct line. Qed.

(** *** The carry-over text *)

Lemma append_String c s b : String c s +:+ b = String c (s +:+ b).
Proof. reflexivity. Qed.

Lemma split_lines_nonempty s : split_lines s ≠ [].
Proof.
  destruct s as [|c rest]; [discriminate|]. cbn [split_lines].
  destruct (Ascii.eqb c LF); [discriminate|].
  destruct rest as [|c' rest'].
  - discriminate.
  - destruct (Ascii.eqb c CR && Ascii.eqb c' LF); [discriminate|].
    unfold cons_head. by destruct (split_lines (String c' rest')).
Qed.

Lemma popped_cons line (lines : list string) :
  lines ≠ [] -> popped (line :: lines) = line :: popped lines.
Proof. by destruct lines. Qed.

Lemma pop_or_empty_cons line (lines : list string) :
  lines ≠ [] -> pop_or_empty (line :: lines) = pop_or_empty lines.
Proof. by destruct lines. Qed.

(** Splitting a text that continues: the complete lines of the first part,
    then the split of its unfinished last line followed by the rest. *)
Lemma split_lines_app (n : nat) : ∀ a b,
  (String.length a <= n)%nat ->
  split_lines (a +:+ b) =
  popped (split_lines a) ++ split_lines (pop_or_empty (split_lines a) +:+ b).
Proof.
  induction n as [|n IH]; intros a b Hlen.
  - destruct a; [reflexivity | cbn in Hlen; lia].
  - destruct a as [|c rest]; [reflexivity|].
    cbn [String.length] in Hlen. rewrite append_String. cbn [split_lines].
    destruct (Ascii.eqb c LF) eqn:HcLF.
    { rewrite popped_cons, pop_or_empty_cons by apply split_lines_nonempty.
      rewrite (IH rest b) by lia. reflexivity. }
    destruct rest as [|c' rest'].
    { change ("" +:+ b) with b. cbn [split_lines]. unfold popped, pop_or_empty.
      cbn [cons_head List.removelast List.last app].
      change (String c "" +:+ b) with (String c b).
      cbn [split_lines]. rewrite HcLF. reflexivity. }
    rewrite append_String.
    destruct (Ascii.eqb c CR && Ascii.eqb c' LF) eqn:Hcrlf.
    { rewrite popped_cons, pop_or_empty_cons by apply split_lines_nonempty.
      cbn [String.length] in Hlen. rewrite (IH rest' b) by lia. reflexivity. }
    rewrite <- append_String. rewrite (IH (String c' rest') b) by lia.
    assert (Hne := split_lines_nonempty (String c' rest')).
    destruct (split_lines (String c' rest')) as [|l [|l2 ls]] eqn:Hsplit; [done| |].
    + (* the rest is one unfinished line, which begins with [c'] *)
      assert (Hl : ∃ l', l = String c' l').
      { cbn [split_lines] in Hsplit.
        destruct (Ascii.eqb c' LF).
        - injection Hsplit; intros Hnil _. by apply split_lines_nonempty in Hnil.
        - destruct rest' as [|c'' rest''].
          + injection Hsplit as <-. by exists "".
          + destruct (Ascii.eqb c' CR && Ascii.eqb c'' LF).
            * injection Hsplit; intros Hnil _. by apply split_lines_nonempty in Hnil.
            * unfold cons_head in Hsplit.
              destruct (split_lines (String c'' rest'')) as [|p ps];
                injection Hsplit; intros; subst l; by eexists. }
      destruct Hl as [l' ->]. cbn [popped pop_or_empty cons_head List.removelast List.last app].
      rewrite !append_String. cbn [split_lines]. rewrite HcLF, Hcrlf. reflexivity.
    + reflexivity.
Qed.

(** *** Chunk boundaries *)

Lemma set_lastEventId_same s : set_lastEventId (SupaFlow.lastEventId s) s = s.
Proof. by destruct s. Qed.

(** The loop of the parser always returns; it returns the records of
    [scanLines] after those it was given and leaves the last event id of
    [scanLines] in the instance. *)
Lemma parseLines_run lines : ∀ message messages s,
  parseLines lines message messages s =
  (Done (messages ++ (scanLines lines message (SupaFlow.lastEventId s)).1.1),
   set_lastEventId (scanLines lines message (SupaFlow.lastEventId s)).2 s,
   []).
Proof.
  induction lines as [|line lines IH]; intros message messages s.
  - cbn. by rewrite app_nil_r, set_lastEventId_same.
  - cbn [parseLines scanLines].
    destruct (String.eqb line "").
    + destruct (0 <? EventMessage.keys message)%nat.
      * rewrite IH.
        destruct (scanLines lines EventMessage.empty (SupaFlow.lastEventId s))
          as [[completed inProgress] lastId].
        cbn. by rewrite <- app_assoc.
      * apply IH.
    + destruct (indexOf ":" line) as [colonIndex|]; [|apply IH].
      cbn zeta.
      destruct (String.eqb (trim (slice_to colonIndex line)) "id").
      * unfold bind, modify. rewrite IH. reflexivity.
      * rewrite ret_bind. apply IH.
Qed.

Lemma scanLines_app lines1 : ∀ lines2 message lastEventId,
  scanLines (lines1 ++ lines2) message lastEventId =
  let '(completed1, inProgress1, lastId1) := scanLines lines1 message lastEventId in
  let '(completed2, inProgress2, lastId2) := scanLines lines2 inProgress1 lastId1 in
  (completed1 ++ completed2, inProgress2, lastId2).
Proof.
  induction lines1 as [|line lines1 IH]; intros lines2 message lastEventId.
  - cbn. by destruct (scanLines lines2 message lastEventId) as [[? ?] ?].
  - cbn [app scanLines].
    destruct (String.eqb line "").
    + destruct (0 <? EventMessage.keys message)%nat; [|apply IH].
      rewrite IH.
      destruct (scanLines lines1 EventMessage.empty lastEventId) as [[c1 m1] i1].
      by destruct (scanLines lines2 m1 i1) as [[c2 m2] i2].
    + destruct (indexOf ":" line) as [colonIndex|]; apply IH.
Qed.

Lemma popped_app (lines1 lines2 : list string) :
  lines2 ≠ [] -> popped (lines1 ++ lines2) = lines1 ++ popped lines2.
Proof.
  intros Hne. induction lines1 as [|l lines1 IH]; [reflexivity|].
  cbn [app]. rewrite popped_cons, IH; [reflexivity|].
  by destruct lines1, lines2.
Qed.

Lemma pop_or_empty_app (lines1 lines2 : list string) :
  lines2 ≠ [] -> pop_or_empty (lines1 ++ lines2) = pop_or_empty lines2.
Proof.
  intros Hne. induction lines1 as [|l lines1 IH]; [reflexivity|].
  cbn [app]. rewrite pop_or_empty_cons, IH; [reflexivity|].
  by destruct lines1, lines2.
Qed.

Lemma parseEventStream_run chunk s :
  parseEventStream chunk s =
  let lines := split_lines (SupaFlow.messageBuffer s +:+ chunk) in
  let scan := scanLines (popped lines) EventMessage.empty (SupaFlow.lastEventId s) in
  (Done scan.1.1,
   set_lastEventId scan.2 (set_messageBuffer (pop_or_empty lines) s),
   []).
Proof.
  unfold parseEventStream, bind, modify, gets. cbn -[parseLines split_lines].
  rewrite parseLines_run. reflexivity.
Qed.

Lemma append_assoc (a b c : string) : (a +:+ b) +:+ c = a +:+ (b +:+ c).
Proof. induction a as [|x a IH]; [reflexivity|]. rewrite !append_String. by rewrite IH. Qed.

(** Where the parser does not depend on the cut: when no record is in
    progress at the end of the first chunk (the chunk ends with the blank
    line of a record, or holds no field line since the last one), feeding two
    chunks one after the other gives the records, the carry-over text and the
    last event id of feeding their concatenation. *)
Lemma feed_cut_between_records (s : SupaFlow.t) (a b : string) :
  inProgressAfter s a = EventMessage.empty ->
  feed [a; b] s = feed [a +:+ b] s.
Proof.
  unfold inProgressAfter. intros Hidle.
  cbn [feed]. unfold bind, ret.
  rewrite !parseEventStream_run.
  cbn -[parseEventStream split_lines scanLines popped pop_or_empty].
  rewrite parseEventStream_run.
  cbn -[parseEventStream split_lines scanLines popped pop_or_empty].
  set (lines1 := split_lines (SupaFlow.messageBuffer s +:+ a)) in *.
  rewrite <- append_assoc.
  rewrite (split_lines_app _ (SupaFlow.messageBuffer s +:+ a) b (le_n _)).
  fold lines1.
  set (lines2 := split_lines (pop_or_empty lines1 +:+ b)).
  assert (Hne : lines2 ≠ []) by apply split_lines_nonempty.
  rewrite (popped_app _ _ Hne), (pop_or_empty_app _ _ Hne), scanLines_app.
  destruct (scanLines (popped lines1) EventMessage.empty (SupaFlow.lastEventId s))
    as [[c1 m1] i1].
  cbn in Hidle. subst m1. cbn [fst snd].
  destruct (scanLines (popped lines2) EventMessage.empty i1) as [[c2 m2] i2].
  cbn. rewrite !app_nil_r. reflexivity.
Qed.

(** Two records cut between them: the same records either way. *)
Example feed_two_records :
  completion (feed [text_of_lines ["data: a"; ""]; text_of_lines ["data: b"; ""]]
                (constructor SupaFlowOptions.none 0))
  = completion (feed [text_of_lines ["data: a"; ""; "data: b"; ""]]
                  (constructor SupaFlowOptions.none 0)).
Proof. vm_compute. reflexivity. Qed.

(** *** Records cut by a chunk boundary, and the retry field *)

(** C5, as amended. A complete line whose field is [retry] and whose value
    parses as the integer [n] sets the [retry] field of the record in
    progress to [n] and nothing else; no call of the parser changes the
    delay [calculateRetryDelay] computes, which depends on the configured
    strategy and the retry counter only. *)
Theorem retry_line_only_sets_record_field (s : SupaFlow.t) (line : string)
    (colonIndex : nat) (n : Z) :
  indexOf ":" line = Some colonIndex ->
  trim (slice_to colonIndex line) = "retry" ->
  parseInt (trim (slice_from (S colonIndex) line)) = Some n ->
  (∀ rest message messages,
     parseLines (line :: rest) message messages s =
     parseLines rest
       (EventMessage.mk (EventMessage.id message) (EventMessage.event message)
          (EventMessage.data message) (Some n))
       messages s) ∧
  (∀ chunk,
     calculateRetryDelay (final (parseEventStream chunk s)) = calculateRetryDelay s).
Proof.
  intros Hcolon Hfield Hvalue. split.
  - intros rest message messages. cbn [parseLines].
    rewrite (indexOf_nonempty _ _ _ Hcolon), Hcolon. cbn zeta.
    rewrite Hfield. unfold setField. cbn [String.eqb Ascii.eqb Bool.eqb].
    rewrite Hvalue. by rewrite ret_bind.
  - intros chunk. apply calculateRetryDelay_depends.
    + apply (parseEventStream_preserves (same SupaFlow.options)).
    + apply (parseEventStream_preserves (same SupaFlow.retryCount)).
Qed.

Lemma retry_line_only_sets_record_field_witness :
  completion (parseLines ["retry: 5000"; ""] EventMessage.empty []
                (constructor SupaFlowOptions.none 0))
    = Done [EventMessage.mk None None None (Some 5000)] ∧
  calculateRetryDelay
    (final (parseEventStream (text_of_lines ["retry: 5000"; ""])
              (constructor SupaFlowOptions.none 0))) = Finite 1000.
Proof.
  destruct (retry_line_only_sets_record_field (constructor SupaFlowOptions.none 0)
              "retry: 5000" 5 5000) as [Hline Hdelay]; try reflexivity.
  split.
  - rewrite Hline. reflexivity.
  - rewrite Hdelay. reflexivity.
Defined.

(** C5, as stated, fails: a stream that sends [retry: 5000] and then ends has
    its reconnection scheduled after the 1000 of the configured strategy, the
    same as a stream that sends [retry: 7]. *)
Lemma retry_value_does_not_reach_the_delay :
  scheduled (effects (connect not_json (ended_stream 1 ["retry: 5000"; ""])
                        (constructor SupaFlowOptions.none 0))) = [Finite 1000] ∧
  scheduled (effects (connect not_json (ended_stream 1 ["retry: 7"; ""])
                        (constructor SupaFlowOptions.none 0))) = [Finite 1000] ∧
  calculateRetryDelay
    (final (connect not_json (ended_stream 1 ["retry: 5000"; ""])
              (constructor SupaFlowOptions.none 0))) ≠ Finite 5000.
Proof.
  split; [|split].
  - vm_compute. reflexivity.
  - vm_compute. reflexivity.
  - vm_compute. discriminate.
Qed.

(** C1, on the code. The text of one record, a data line and the blank line
    that ends it, gives that record when fed as one chunk, and gives nothing
    when cut between the two lines: the record in progress is a local
    variable of the call and is dropped when the first call returns. *)
Theorem record_split_between_chunks_is_lost :
  String.append (text_of_lines ["data: a"]) (text_of_lines [""])
    = text_of_lines ["data: a"; ""] ∧
  completion (feed [text_of_lines ["data: a"; ""]]
                (constructor SupaFlowOptions.none 0))
    = Done [data_message "a"] ∧
  completion (feed [text_of_lines ["data: a"]; text_of_lines [""]]
                (constructor SupaFlowOptions.none 0))
    = Done [].
Proof. repeat split; vm_compute; reflexivity. Qed.


(** * Further properties of the code *)

(** ** Dispatch and subscriptions *)

(** X1. [emit] never throws and never changes the instance, whatever the
    transformers and handlers do; when the filter lets the name pass, every
    handler registered for it is called once, in the order of registration,
    with the transformed data, also the handlers that come after one that
    threw. *)
Theorem emit_isolates_handler_failures (s : SupaFlow.t) (event : string) (data : any) :
  completion (emit event data s) = Done tt ∧
  final (emit event data s) = s ∧
  deliveries (effects (emit event data s)) =
    (if shouldProcessEvent s event
     then (fun h => (event, EventHandler.hid h, transformData s data))
            <$> handlersOf s event
     else []) ∧
  emissions (effects (emit event data s)) = [(event, data)].
Proof.
  rewrite emit_run. cbn [completion final effects fst snd].
  split; [reflexivity|]. split; [reflexivity|].
  split; [apply deliveries_dispatch|].
  cbn. unfold emissions in *. by rewrite (emissions_dispatch s).
Qed.

(** A handler that throws in front of one that records: both are called. *)
Example emit_after_throwing_handler :
  deliveries (effects (emit "message" (Num 1) guarded_flow))
    = [("message", 1%nat, Num 1); ("message", 2%nat, Num 1)] ∧
  completion (emit "message" (Num 1) guarded_flow) = Done tt.
Proof. split; vm_compute; reflexivity. Qed.

Lemma transformers_fold (ts1 ts2 : list (any -> Result any)) (data : any) :
  fold_left (fun result transformer =>
               match transformer result with
               | Returns r => r
               | Throws _ => result
               end) (ts1 ++ ts2) data =
  fold_left (fun result transformer =>
               match transformer result with
               | Returns r => r
               | Throws _ => result
               end) ts2
    (fold_left (fun result transformer =>
                  match transformer result with
                  | Returns r => r
                  | Throws _ => result
                  end) ts1 data).
Proof. apply fold_left_app. Qed.

Lemma transformData_fold (ts : list (any -> Result any)) s data :
  transformData (with_transformers (Some ts) s) data =
  fold_left (fun result transformer =>
               match transformer result with
               | Returns r => r
               | Throws _ => result
               end) ts data.
Proof. unfold transformData. cbn. by destruct ts. Qed.

(** X2. The transformer pipeline composes, and a transformer that throws on
    the value that reaches it is skipped: the result is that of the pipeline
    without it. A pipeline that is absent or empty leaves the data as it
    is. *)
Theorem transformData_skips_failing (s : SupaFlow.t)
    (ts1 ts2 : list (any -> Result any)) (t : any -> Result any)
    (data : any) (e : Thrown) :
  t (transformData (with_transformers (Some ts1) s) data) = Throws e ->
  transformData (with_transformers (Some (ts1 ++ t :: ts2)) s) data =
    transformData (with_transformers (Some (ts1 ++ ts2)) s) data ∧
  transformData (with_transformers (Some (ts1 ++ ts2)) s) data =
    transformData (with_transformers (Some ts2) s)
      (transformData (with_transformers (Some ts1) s) data) ∧
  transformData (with_transformers None s) data = data ∧
  transformData (with_transformers (Some []) s) data = data.
Proof.
  intros Hthrows. rewrite !transformData_fold in *.
  rewrite !transformers_fold. cbn [fold_left]. rewrite Hthrows.
  repeat split; reflexivity.
Qed.

Lemma transformData_skips_failing_witness :
  transformData
    (with_transformers (Some [wrap; failing; wrap]) (constructor SupaFlowOptions.none 0))
    (Num 1)
  = Arr [Arr [Num 1]].
Proof.
  destruct (transformData_skips_failing (constructor SupaFlowOptions.none 0)
              [wrap] [wrap] failing (Num 1) (ThrownOther (Str "bad")))
    as [Hskip _]; [reflexivity|].
  cbn [app] in Hskip. rewrite Hskip. reflexivity.
Defined.

Lemma handlersOf_on s event h event' :
  handlersOf (final (on event h s)) event' =
  if decide (event = event') then set_add h (handlersOf s event) else handlersOf s event'.
Proof.
  unfold handlersOf, on, modify. cbn.
  destruct (decide (event = event')) as [<-|Hne].
  - by rewrite lookup_insert_eq.
  - by rewrite lookup_insert_ne.
Qed.

Lemma handlersOf_off s event h event' :
  handlersOf (final (off event h s)) event' =
  if decide (event = event') then set_delete h (handlersOf s event) else handlersOf s event'.
Proof.
  unfold handlersOf, off, modify. cbn.
  destruct (decide (event = event')) as [<-|Hne].
  - rewrite lookup_alter_eq. by destruct (SupaFlow.eventHandlers s !! event).
  - by rewrite lookup_alter_ne.
Qed.

Lemma set_delete_fresh h handlers :
  EventHandler.hid h ∉ EventHandler.hid <$> handlers ->
  set_delete h (handlers ++ [h]) = handlers.
Proof.
  intros Hfresh. unfold set_delete. rewrite filter_app.
  rewrite (filter_cons_False _ h []) by (intros Hne; by apply Hne).
  rewrite filter_nil, app_nil_r.
  induction handlers as [|h' handlers IH]; [reflexivity|].
  rewrite fmap_cons in Hfresh. apply not_elem_of_cons in Hfresh as [Hne Hfresh].
  rewrite filter_cons_True by (intros Heq; apply Hne; by rewrite Heq).
  by rewrite IH.
Qed.

Lemma shouldProcessEvent_options s s' event :
  SupaFlow.options s' = SupaFlow.options s ->
  shouldProcessEvent s' event = shouldProcessEvent s event.
Proof. unfold shouldProcessEvent. by intros ->. Qed.

Lemma transformData_options s s' data :
  SupaFlow.options s' = SupaFlow.options s ->
  transformData s' data = transformData s data.
Proof. unfold transformData. by intros ->. Qed.

(** X3. Subscribing a handler that is not yet registered for an event puts
    it last among the handlers of that event and touches no other event;
    subscribing it again changes nothing; unsubscribing it restores the
    handlers of every event. Accordingly an emitted event reaches it after
    the handlers that were there, and no longer reaches it once it is
    unsubscribed. *)
Theorem subscription_round_trip (s : SupaFlow.t) (event : string) (h : EventHandler.t) :
  EventHandler.hid h ∉ EventHandler.hid <$> handlersOf s event ->
  let s1 := final (on event h s) in
  let s2 := final (off event h s1) in
  handlersOf s1 event = handlersOf s event ++ [h] ∧
  (∀ event', event' ≠ event -> handlersOf s1 event' = handlersOf s event') ∧
  final (on event h s1) = s1 ∧
  (∀ event', handlersOf s2 event' = handlersOf s event') ∧
  (∀ data,
     deliveries (effects (emit event data s1)) =
       deliveries (effects (emit event data s)) ++
       (if shouldProcessEvent s event
        then [(event, EventHandler.hid h, transformData s data)] else []) ∧
     deliveries (effects (emit event data s2)) =
       deliveries (effects (emit event data s))).
Proof.
  intros Hfresh s1 s2.
  assert (H1 : handlersOf s1 event = handlersOf s event ++ [h]).
  { subst s1. rewrite handlersOf_on. rewrite decide_True by done.
    unfold set_add. by rewrite bool_decide_eq_false_2. }
  assert (H2 : ∀ event', handlersOf s2 event' = handlersOf s event').
  { intros event'. subst s2. rewrite handlersOf_off.
    destruct (decide (event = event')) as [<-|Hne].
    - rewrite H1. by apply set_delete_fresh.
    - subst s1. rewrite handlersOf_on. by rewrite decide_False. }
  split; [exact H1|]. split; [|split; [|split; [exact H2|]]].
  - intros event' Hne. subst s1. rewrite handlersOf_on. by rewrite decide_False.
  - subst s1. unfold on at 1, modify. cbn [final fst snd].
    change (default [] (SupaFlow.eventHandlers (final (on event h s)) !! event))
      with (handlersOf (final (on event h s)) event).
    rewrite H1. unfold set_add.
    rewrite bool_decide_eq_true_2
      by (apply list_elem_of_fmap; exists h; split; [done|];
          apply elem_of_app; right; apply list_elem_of_here).
    unfold on, modify. cbn.
    change (default [] (SupaFlow.eventHandlers s !! event)) with (handlersOf s event).
    assert (Hadd : set_add h (handlersOf s event) = handlersOf s event ++ [h])
      by (unfold set_add; by rewrite bool_decide_eq_false_2).
    by rewrite Hadd, insert_insert_eq.
  - intros data. rewrite !deliveries_emit.
    rewrite (shouldProcessEvent_options s s1), (shouldProcessEvent_options s s2) by done.
    rewrite (transformData_options s s1), (transformData_options s s2) by done.
    rewrite H1, H2. destruct (shouldProcessEvent s event).
    + by rewrite fmap_app.
    + done.
Qed.

Lemma subscription_round_trip_witness :
  handlersOf (final (on "message" (recorder 3) guarded_flow)) "message"
    = [thrower 1; recorder 2; recorder 3] ∧
  handlersOf (final (off "message" (recorder 3)
                       (final (on "message" (recorder 3) guarded_flow)))) "message"
    = [thrower 1; recorder 2].
Proof.
  destruct (subscription_round_trip guarded_flow "message" (recorder 3))
    as (Hon & _ & _ & Hoff & _).
  - vm_compute. intros Hin. repeat (apply elem_of_cons in Hin as [Hin|Hin]; [discriminate|]).
    by apply elem_of_nil in Hin.
  - split.
    + rewrite Hon. vm_compute. reflexivity.
    + rewrite Hoff. vm_compute. reflexivity.
Defined.

(** X4. [close] returns with the state DISCONNECTED, no controller and no
    timers, and keeps the history, the batch buffer, the carry-over text of
    the parser, the last event id, the retry counter, the subscriptions and
    the options. It aborts the transport only when there is a controller;
    closing a closed instance changes nothing and only tells the observer
    again. *)
Theorem close_is_idempotent (s : SupaFlow.t) :
  let s1 := final (close s) in
  completion (close s) = Done tt ∧
  effects (close s) =
    StateChanged DISCONNECTED :: (if SupaFlow.controller s then [Aborted] else []) ∧
  getState s1 = DISCONNECTED ∧
  SupaFlow.controller s1 = false ∧
  SupaFlow.heartbeatInterval s1 = None ∧
  SupaFlow.batchInterval s1 = None ∧
  (getBuffer s1 = getBuffer s ∧ getBatchBuffer s1 = getBatchBuffer s ∧
   SupaFlow.messageBuffer s1 = SupaFlow.messageBuffer s ∧
   SupaFlow.lastEventId s1 = SupaFlow.lastEventId s ∧
   SupaFlow.retryCount s1 = SupaFlow.retryCount s ∧
   SupaFlow.eventHandlers s1 = SupaFlow.eventHandlers s ∧
   SupaFlow.options s1 = SupaFlow.options s) ∧
  close s1 = (Done tt, s1, [StateChanged DISCONNECTED]).
Proof.
  destruct s as [o rc b [] [hi|] lmt lid mb eh cs bb [bi|]];
    cbn; repeat split; reflexivity.
Qed.

(** ** Lines and the carry-over text *)

Lemma indexOf_cons_None c c' rest :
  indexOf c (String c' rest) = None -> Ascii.eqb c' c = false ∧ indexOf c rest = None.
Proof.
  cbn [indexOf]. destruct (Ascii.eqb c' c); [discriminate|].
  by destruct (indexOf c rest).
Qed.

Lemma split_lines_no_LF text : no_LF text -> split_lines text = [text].
Proof.
  unfold no_LF. induction text as [|c rest IH]; [reflexivity|].
  intros Hno. apply indexOf_cons_None in Hno as [Hc Hrest].
  cbn [split_lines]. rewrite Hc.
  destruct rest as [|c' rest'].
  - reflexivity.
  - destruct (indexOf_cons_None _ _ _ Hrest) as [Hc' _].
    rewrite Hc', andb_false_r, (IH Hrest). reflexivity.
Qed.

Lemma cons_head_no_LF c pieces :
  Ascii.eqb c LF = false ->
  Forall no_LF pieces -> Forall no_LF (cons_head c pieces).
Proof.
  intros Hc Hall. unfold cons_head.
  destruct Hall as [|p ps Hp Hps].
  - constructor; [|constructor]. unfold no_LF. cbn. by rewrite Hc.
  - constructor; [|exact Hps]. unfold no_LF in *. cbn. by rewrite Hc, Hp.
Qed.

Lemma split_lines_pieces (n : nat) : ∀ text,
  (String.length text <= n)%nat -> Forall no_LF (split_lines text).
Proof.
  induction n as [|n IH]; intros text Hlen.
  - destruct text; [by repeat constructor | cbn in Hlen; lia].
  - destruct text as [|c rest]; [by repeat constructor|].
    cbn [String.length] in Hlen. cbn [split_lines].
    destruct (Ascii.eqb c LF) eqn:Hc.
    { constructor; [reflexivity|]. apply IH. lia. }
    destruct rest as [|c' rest'].
    { apply cons_head_no_LF; [exact Hc|]. by repeat constructor. }
    destruct (Ascii.eqb c CR && Ascii.eqb c' LF).
    { constructor; [reflexivity|]. apply IH. cbn [String.length] in Hlen. lia. }
    apply cons_head_no_LF; [exact Hc|]. apply IH. lia.
Qed.

Lemma pop_or_empty_no_LF (pieces : list string) :
  Forall no_LF pieces -> no_LF (pop_or_empty pieces).
Proof.
  unfold pop_or_empty. induction 1 as [|p ps Hp Hps IH]; [reflexivity|].
  destruct ps; [exact Hp | exact IH].
Qed.

Lemma set_messageBuffer_lastEventId s text :
  set_lastEventId (SupaFlow.lastEventId s) (set_messageBuffer text s) =
  set_messageBuffer text s.
Proof. by destruct s. Qed.

(** X5. What the parser keeps between two calls is an unfinished line: after
    any call the carry-over text holds no line feed. A chunk that brings no
    line feed to a carry-over is only appended to it: the call returns no
    record and changes nothing else. *)
Theorem carry_over_is_an_unfinished_line (s : SupaFlow.t) (chunk : string) :
  no_LF (SupaFlow.messageBuffer (final (parseEventStream chunk s))) ∧
  (no_LF (SupaFlow.messageBuffer s +:+ chunk) ->
   parseEventStream chunk s =
     (Done [], set_messageBuffer (SupaFlow.messageBuffer s +:+ chunk) s, [])).
Proof.
  rewrite parseEventStream_run. cbn zeta. split.
  - cbn [final fst snd SupaFlow.messageBuffer set_lastEventId set_messageBuffer].
    apply pop_or_empty_no_LF. by apply (split_lines_pieces _ _ (le_n _)).
  - intros Hno. rewrite (split_lines_no_LF _ Hno).
    cbn [popped pop_or_empty List.removelast List.last scanLines fst snd].
    by rewrite set_messageBuffer_lastEventId.
Qed.

Lemma carry_over_is_an_unfinished_line_witness :
  parseEventStream "data: par" (constructor SupaFlowOptions.none 0)
  = (Done [], set_messageBuffer "data: par" (constructor SupaFlowOptions.none 0), []).
Proof.
  destruct (carry_over_is_an_unfinished_line (constructor SupaFlowOptions.none 0)
              "data: par") as [_ Hbuffered].
  apply Hbuffered. reflexivity.
Defined.

Lemma split_lines_line_LF line rest :
  no_LF line -> last_char line ≠ Some CR ->
  split_lines (line +:+ String LF rest) = line :: split_lines rest.
Proof.
  unfold no_LF. induction line as [|c line IH]; intros Hno Hlast.
  - reflexivity.
  - apply indexOf_cons_None in Hno as [Hc Hline].
    rewrite append_String. cbn [split_lines]. rewrite Hc.
    destruct line as [|c' line'].
    + change ("" +:+ String LF rest) with (String LF rest).
      destruct (Ascii.eqb_spec c CR) as [->|_]; [by destruct Hlast|].
      cbn [andb]. cbn [split_lines]. rewrite Ascii.eqb_refl. reflexivity.
    + rewrite append_String.
      destruct (indexOf_cons_None _ _ _ Hline) as [Hc' _].
      rewrite Hc', andb_false_r. rewrite <- append_String, IH; [reflexivity|done|].
      intros Hlast'. apply Hlast. exact Hlast'.
Qed.

Lemma split_lines_line_CRLF line rest :
  no_LF line ->
  split_lines (line +:+ String CR (String LF rest)) = line :: split_lines rest.
Proof.
  unfold no_LF. induction line as [|c line IH]; intros Hno.
  - reflexivity.
  - apply indexOf_cons_None in Hno as [Hc Hline].
    rewrite append_String. cbn [split_lines]. rewrite Hc.
    destruct line as [|c' line'].
    + change ("" +:+ String CR (String LF rest)) with (String CR (String LF rest)).
      destruct (Ascii.eqb c CR); cbn; reflexivity.
    + rewrite append_String.
      destruct (indexOf_cons_None _ _ _ Hline) as [Hc' _].
      rewrite Hc', andb_false_r. rewrite <- append_String, IH; [reflexivity|done].
Qed.

(** X6. Line feed and carriage return plus line feed end a line alike. The
    lines of a text written with line feeds are read back as they were
    written when none holds a line feed or ends with a carriage return; the
    lines of a text written with carriage return and line feed are read back
    when none holds a line feed. On an instance with no carry-over the parser
    then returns the same records and ends in the same state for the two
    texts. *)
Theorem line_endings_round_trip (lines : list string) (s : SupaFlow.t) :
  Forall no_LF lines ->
  split_lines (crlf_text_of_lines lines) = lines ++ [""] ∧
  (Forall (fun line => last_char line ≠ Some CR) lines ->
   split_lines (text_of_lines lines) = lines ++ [""] ∧
   (SupaFlow.messageBuffer s = "" ->
    parseEventStream (crlf_text_of_lines lines) s =
    parseEventStream (text_of_lines lines) s)).
Proof.
  intros Hno.
  assert (Hcrlf : split_lines (crlf_text_of_lines lines) = lines ++ [""]).
  { induction Hno as [|line lines Hline _ IH]; [reflexivity|].
    unfold crlf_text_of_lines in *. cbn [foldr].
    by rewrite split_lines_line_CRLF, IH. }
  split; [exact Hcrlf|]. intros Hlast.
  assert (Hlf : split_lines (text_of_lines lines) = lines ++ [""]).
  { clear Hcrlf. induction Hno as [|line lines Hline _ IH]; [reflexivity|].
    inversion Hlast as [|? ? Hl Hls]; subst.
    unfold text_of_lines in *. cbn [foldr].
    by rewrite split_lines_line_LF, IH. }
  split; [exact Hlf|]. intros Hempty.
  rewrite !parseEventStream_run, Hempty. cbn zeta.
  change ("" +:+ crlf_text_of_lines lines) with (crlf_text_of_lines lines).
  change ("" +:+ text_of_lines lines) with (text_of_lines lines).
  by rewrite Hcrlf, Hlf.
Qed.

Lemma line_endings_round_trip_witness :
  split_lines (crlf_text_of_lines ["event: temp"; "data: 21"; ""])
    = ["event: temp"; "data: 21"; ""; ""] ∧
  split_lines (text_of_lines ["event: temp"; "data: 21"; ""])
    = ["event: temp"; "data: 21"; ""; ""].
Proof.
  destruct (line_endings_round_trip ["event: temp"; "data: 21"; ""]
              (constructor SupaFlowOptions.none 0)) as [Hcrlf Hlf].
  - repeat constructor.
  - split; [exact Hcrlf|]. apply Hlf. repeat constructor; discriminate.
Defined.

(** ** Records *)

Lemma scanLines_data_line v rest message lastEventId :
  scanLines (data_line v :: rest) message lastEventId =
  scanLines rest (setField "data" (trim v) message) lastEventId.
Proof. reflexivity. Qed.


Lemma append_nonempty (a b : string) : a ≠ "" -> a +:+ b ≠ "".
Proof. by destruct a. Qed.

(** Once the data of the record in progress is not empty, every further data
    line adds a line feed and its value. *)
Lemma scanLines_data_lines_more vs : ∀ d rest message lastEventId,
  EventMessage.data message = Some d -> d ≠ "" ->
  scanLines ((data_line <$> vs) ++ rest) message lastEventId =
  scanLines rest
    (EventMessage.mk (EventMessage.id message) (EventMessage.event message)
       (Some (foldl (fun acc v => acc +:+ String LF "" +:+ v) d (trim <$> vs)))
       (EventMessage.retry message))
    lastEventId.
Proof.
  induction vs as [|v vs IH]; intros d rest message lastEventId Hd Hne.
  - cbn. destruct message. cbn in Hd. by subst.
  - cbn [fmap list_fmap app]. rewrite scanLines_data_line.
    rewrite (IH (d +:+ String LF "" +:+ trim v)).
    + reflexivity.
    + unfold setField. cbn. rewrite Hd. by destruct d.
    + by apply append_nonempty.
Qed.

(** While the data of the record in progress is absent or empty, a data line
    replaces it. *)
Lemma scanLines_data_lines vs : ∀ rest message lastEventId,
  vs ≠ [] ->
  truthy_string (EventMessage.data message) = None ->
  scanLines ((data_line <$> vs) ++ rest) message lastEventId =
  scanLines rest
    (EventMessage.mk (EventMessage.id message) (EventMessage.event message)
       (Some (join_LF (skip_empty (trim <$> vs))))
       (EventMessage.retry message))
    lastEventId.
Proof.
  induction vs as [|v vs IH]; intros rest message lastEventId Hne Hfalsy; [done|].
  cbn [fmap list_fmap app]. rewrite scanLines_data_line.
  assert (Hset : setField "data" (trim v) message =
                 EventMessage.mk (EventMessage.id message) (EventMessage.event message)
                   (Some (trim v)) (EventMessage.retry message)).
  { unfold setField. cbn. by rewrite Hfalsy. }
  rewrite Hset.
  destruct (trim v) as [|c t] eqn:Hv.
  - cbn [skip_empty]. destruct vs as [|v' vs].
    + reflexivity.
    + rewrite IH; [reflexivity | done | reflexivity].
  - rewrite (scanLines_data_lines_more vs (String c t)); [|reflexivity|done].
    reflexivity.
Qed.

(** X7. The data lines of one record are joined by line feeds in their order
    of arrival, each value trimmed; empty values at the front are dropped,
    since an empty data counts as no data when the next line arrives. *)
Theorem data_lines_are_joined (vs : list string) (messages : list EventMessage.t)
    (s : SupaFlow.t) :
  vs ≠ [] ->
  parseLines ((data_line <$> vs) ++ [""]) EventMessage.empty messages s =
  (Done (messages ++
           [EventMessage.mk None None (Some (join_LF (skip_empty (trim <$> vs)))) None]),
   s, []).
Proof.
  intros Hne. rewrite parseLines_run.
  rewrite scanLines_data_lines by done. cbn.
  by rewrite set_lastEventId_same.
Qed.

Lemma data_lines_are_joined_witness :
  parseLines ["data:"; "data: first"; "data:"; "data:  second "; ""]
    EventMessage.empty [] (constructor SupaFlowOptions.none 0)
  = (Done [EventMessage.mk None None
             (Some ("first" +:+ String LF "" +:+ String LF "second")) None],
     constructor SupaFlowOptions.none 0, []).
Proof.
  apply (data_lines_are_joined [""; " first"; ""; "  second "] []
           (constructor SupaFlowOptions.none 0)).
  discriminate.
Defined.

Lemma scanLines_ignorable line rest message lastEventId :
  ignorable line ->
  scanLines (line :: rest) message lastEventId = scanLines rest message lastEventId.
Proof.
  intros [Hne Hline]. cbn [scanLines].
  destruct (String.eqb_spec line "") as [->|_]; [done|].
  destruct (indexOf ":" line) as [colonIndex|]; [|reflexivity].
  cbn zeta in *.
  set (field := trim (slice_to colonIndex line)) in *.
  set (value := trim (slice_from (S colonIndex) line)) in *.
  destruct Hline as [(Hid & Hevent & Hdata & Hretry)|[Hretry Hnan]].
  - unfold setField.
    destruct (String.eqb_spec field "id"); [done|].
    destruct (String.eqb_spec field "event"); [done|].
    destruct (String.eqb_spec field "data"); [done|].
    destruct (String.eqb_spec field "retry"); [done|]. reflexivity.
  - unfold setField. rewrite Hretry. cbn [String.eqb Ascii.eqb Bool.eqb].
    by rewrite Hnan.
Qed.

(** X8. Lines without a colon, lines with an unknown field name (a comment
    line, whose field name is empty, among them) and retry lines whose value
    is not a number change nothing: a run of the parser loop over lines with
    such a line among them ends as the run over the lines without it. *)
Theorem ignorable_line_changes_nothing (line : string) (before after : list string)
    (message : EventMessage.t) (messages : list EventMessage.t) (s : SupaFlow.t) :
  ignorable line ->
  parseLines (before ++ line :: after) message messages s =
  parseLines (before ++ after) message messages s.
Proof.
  intros Hline. rewrite !parseLines_run, !scanLines_app.
  destruct (scanLines before message (SupaFlow.lastEventId s)) as [[c1 m1] i1].
  by rewrite scanLines_ignorable.
Qed.

Lemma ignorable_line_changes_nothing_witness :
  completion (parseLines ["data: a"; ": keep-alive"; "retry: soon"; "data: b"; ""]
                EventMessage.empty [] (constructor SupaFlowOptions.none 0))
  = Done [EventMessage.mk None None (Some ("a" +:+ String LF "b")) None].
Proof.
  rewrite (ignorable_line_changes_nothing ": keep-alive" ["data: a"]
             ["retry: soon"; "data: b"; ""]).
  - rewrite (ignorable_line_changes_nothing "retry: soon" ["data: a"]
               ["data: b"; ""]).
    + reflexivity.
    + split; [discriminate|]. right. split; reflexivity.
  - split; [discriminate|]. left. repeat split; discriminate.
Defined.

Lemma scanLines_keys lines : ∀ message lastEventId,
  Forall (fun m => (0 < EventMessage.keys m)%nat)
         (scanLines lines message lastEventId).1.1.
Proof.
  induction lines as [|line lines IH]; intros message lastEventId; [constructor|].
  cbn [scanLines]. destruct (String.eqb line "").
  - destruct (Nat.ltb_spec 0 (EventMessage.keys message)) as [Hkeys|_]; [|apply IH].
    specialize (IH EventMessage.empty lastEventId).
    destruct (scanLines lines EventMessage.empty lastEventId) as [[c m] i].
    by constructor.
  - destruct (indexOf ":" line); apply IH.
Qed.

(** X9. Every call of the parser returns, and no record it returns is empty:
    each has at least one of the fields id, event, data and retry. In
    particular blank lines with no record in progress produce nothing. *)
Theorem parser_returns_no_empty_record (s : SupaFlow.t) (chunk : string) :
  ∃ messages,
    completion (parseEventStream chunk s) = Done messages ∧
    effects (parseEventStream chunk s) = [] ∧
    Forall (fun m => (0 < EventMessage.keys m)%nat) messages.
Proof.
  rewrite parseEventStream_run. cbn zeta. eexists. split; [reflexivity|].
  split; [reflexivity|]. apply scanLines_keys.
Qed.

(** Blank lines only: no record. *)
Example blank_lines_give_no_record :
  completion (parseEventStream (text_of_lines [""; ""; ""])
                (constructor SupaFlowOptions.none 0)) = Done [].
Proof. vm_compute. reflexivity. Qed.


Lemma close_preserves (R : relation SupaFlow.t) `{!PreOrder R} :
  (∀ s v, R s (set_connectionState v s)) ->
  (∀ s v, R s (set_controller v s)) ->
  (∀ s v, R s (set_heartbeatInterval v s)) ->
  (∀ s v, R s (set_batchInterval v s)) ->
  preserves R close.
Proof.
  intros H1 H2 H3 H4. unfold close, setState, clearHeartbeat. preserving; auto.
Qed.



(** ** Connection attempts *)

Section Produces.
Context (P : Effect -> Prop).

Lemma produces_ret {A} (a : A) : produces P (ret a).
Proof. intros s. constructor. Qed.

Lemma produces_gets {A} (f : SupaFlow.t -> A) : produces P (gets f).
Proof. intros s. constructor. Qed.

Lemma produces_modify f : produces P (modify f).
Proof. intros s. constructor. Qed.

Lemma produces_throw {A} e : produces P (@throw A e).
Proof. intros s. constructor. Qed.

Lemma produces_suspend {A} : produces P (@suspend A).
Proof. intros s. constructor. Qed.

Lemma produces_diverge {A} : produces P (@diverge A).
Proof. intros s. constructor. Qed.

Lemma produces_call {A} (r : Result A) : produces P (call r).
Proof. destruct r; intros s; constructor. Qed.

Lemma produces_tell e : P e -> produces P (tell e).
Proof. intros He s. by repeat constructor. Qed.

Lemma produces_bind {A B} (m : M A) (f : A -> M B) :
  produces P m -> (∀ a, produces P (f a)) -> produces P (bind m f).
Proof.
  intros Hm Hf s. unfold bind. specialize (Hm s).
  destruct (m s) as [[[a| | |] s1] t1]; try exact Hm.
  specialize (Hf a s1). destruct (f a s1) as [[c s2] t2].
  cbn in *. by apply Forall_app.
Qed.

Lemma produces_try_catch {A} (body : M A) (handler : Thrown -> M A) :
  produces P body -> (∀ e, produces P (handler e)) ->
  produces P (try_catch body handler).
Proof.
  intros Hm Hh s. unfold try_catch. specialize (Hm s).
  destruct (body s) as [[[a|e| |] s1] t1]; try exact Hm.
  specialize (Hh e s1). destruct (handler e s1) as [[c s2] t2].
  cbn in *. by apply Forall_app.
Qed.
End Produces.

(** Splits a goal [produces P m] along the structure of [m]; what is left are
    the effects told, to be checked against [P]. *)
Ltac producing :=
  repeat match goal with
    | |- produces ?P (ret _) => apply (produces_ret P)
    | |- produces ?P (gets _) => apply (produces_gets P)
    | |- produces ?P (modify _) => apply (produces_modify P)
    | |- produces ?P (throw _) => apply (produces_throw P)
    | |- produces ?P suspend => apply (produces_suspend P)
    | |- produces ?P diverge => apply (produces_diverge P)
    | |- produces ?P (call _) => apply (produces_call P)
    | |- produces ?P (tell _) => apply (produces_tell P)
    | |- produces ?P (bind _ _) => apply (produces_bind P); [|intros ?]
    | |- produces ?P (try_catch _ _) => apply (produces_try_catch P); [|intros ?]
    | |- produces _ (if ?b then _ else _) => destruct b
    | |- produces _ (match ?x with _ => _ end) => destruct x
    end.

Lemma emit_produces_dispatch event data : produces isDispatch (emit event data).
Proof.
  intros s. rewrite emit_run. cbn. constructor; [exact I|].
  unfold dispatch. destruct (shouldProcessEvent s event); [|constructor].
  induction (handlersOf s event); by constructor.
Qed.

Lemma processBatch_produces_dispatch : produces isDispatch processBatch.
Proof.
  unfold processBatch. producing.
  match goal with |- produces _ (processBatch_loop ?fuel ?size) =>
    generalize fuel; intros fuel' end.
  induction fuel' as [|fuel' IH]; cbn [processBatch_loop]; producing;
    first [apply emit_produces_dispatch | apply IH].
Qed.

Lemma parseEventStream_effects chunk s : effects (parseEventStream chunk s) = [].
Proof. by rewrite parseEventStream_run. Qed.

Lemma readLoop_produces_dispatch JSON_parse reads ending :
  produces isDispatch (readLoop JSON_parse reads ending).
Proof.
  assert (Hmessage : ∀ now message,
            produces isDispatch (processMessage JSON_parse now message)).
  { intros now message. unfold processMessage, applyDataHandler, collectBatch, pushBuffer.
    producing; first [apply processBatch_produces_dispatch | apply emit_produces_dispatch]. }
  assert (Hmessages : ∀ now messages,
            produces isDispatch (processMessages JSON_parse now messages)).
  { intros now messages.
    induction messages as [|message messages IH]; cbn [processMessages]; producing;
      first [apply Hmessage | apply IH]. }
  induction reads as [|[now value] reads IH]; cbn [readLoop]; producing;
    try apply Hmessages; try apply IH.
  intros st. rewrite parseEventStream_effects. constructor.
Qed.

Lemma stateChanges_app t1 t2 :
  stateChanges (t1 ++ t2) = stateChanges t1 ++ stateChanges t2.
Proof. apply omap_app. Qed.

Lemma stateChanges_dispatch t : Forall isDispatch t -> stateChanges t = [].
Proof.
  induction 1 as [|e t He _ IH]; [reflexivity|].
  destruct e; try done; exact IH.
Qed.

Lemma scheduled_dispatch t : Forall isDispatch t -> scheduled t = [].
Proof.
  induction 1 as [|e t He _ IH]; [reflexivity|].
  destruct e; try done; exact IH.
Qed.

Lemma connect_rejected_run JSON_parse e s :
  connect JSON_parse (FetchRejected e) s =
  if maxRetries s <=? Z.of_nat (SupaFlow.retryCount s) then
    (Raised (maxRetriesExceeded (SupaFlow.retryCount s)),
     set_connectionState ERROR (entering s),
     [StateChanged CONNECTING; StateChanged ERROR])
  else if autoReconnect s then
    (Done tt,
     set_retryCount (S (SupaFlow.retryCount s)) (set_connectionState ERROR (entering s)),
     [StateChanged CONNECTING; StateChanged ERROR;
      ReconnectScheduled
        (calculateRetryDelay (set_retryCount (S (SupaFlow.retryCount s)) s))])
  else
    (Raised (unknownError e),
     set_retryCount (S (SupaFlow.retryCount s)) (set_connectionState ERROR (entering s)),
     [StateChanged CONNECTING; StateChanged ERROR]).
Proof.
  rewrite connect_rejected, recover_run.
  change (maxRetries (entering s)) with (maxRetries s).
  change (SupaFlow.retryCount (entering s)) with (SupaFlow.retryCount s).
  change (autoReconnect (entering s)) with (autoReconnect s).
  destruct (maxRetries s <=? Z.of_nat (SupaFlow.retryCount s)); [reflexivity|].
  destruct (autoReconnect s); reflexivity.
Qed.

Lemma rejections_run JSON_parse e n : ∀ s,
  autoReconnect s = true ->
  Z.of_nat (SupaFlow.retryCount s + n) <= maxRetries s ->
  SupaFlow.retryCount (rejections JSON_parse e n s).1 = (SupaFlow.retryCount s + n)%nat ∧
  SupaFlow.options (rejections JSON_parse e n s).1 = SupaFlow.options s ∧
  (rejections JSON_parse e n s).2 =
    (fun k => calculateRetryDelay (set_retryCount (SupaFlow.retryCount s + k) s))
      <$> seq 1 n.
Proof.
  induction n as [|n IH]; intros s Hauto Hbudget.
  - cbn. by rewrite Nat.add_0_r.
  - cbn [rejections]. rewrite connect_rejected_run.
    destruct (Z.leb_spec (maxRetries s) (Z.of_nat (SupaFlow.retryCount s))); [lia|].
    rewrite Hauto. cbn [final effects fst snd].
    set (s1 := set_retryCount (S (SupaFlow.retryCount s))
                 (set_connectionState ERROR (entering s))).
    destruct (IH s1) as (Hcount & Hopt & Hdelays).
    { exact Hauto. }
    { change (maxRetries s1) with (maxRetries s).
      change (SupaFlow.retryCount s1) with (S (SupaFlow.retryCount s)). lia. }
    destruct (rejections JSON_parse e n s1) as [s' delays].
    cbn [fst snd] in *. split; [rewrite Hcount; cbn; lia|].
    split; [exact Hopt|]. rewrite Hdelays.
    cbn [scheduled omap seq fmap list_fmap app].
    rewrite Nat.add_1_r. f_equal.
    rewrite <- (fmap_S_seq 1 n), <- list_fmap_compose.
    apply list_fmap_ext. intros _ k _. cbn.
    apply calculateRetryDelay_depends; [reflexivity|]. cbn. lia.
Qed.

(** X11. The retry budget. With auto-reconnect on, each rejected fetch while
    the counter is below [maxRetries] adds one to the counter and schedules a
    reconnection with the delay computed from the new counter, so the delays
    of [n] failures in a row from counter [c] are those for the counters
    [c+1] to [c+n]. Once the counter has reached [maxRetries], a rejected
    fetch throws MAX_RETRIES_EXCEEDED with the counter, schedules nothing and
    leaves the counter as it is. *)
Theorem retry_budget (JSON_parse : string -> option any) (e : any) (n : nat)
    (s : SupaFlow.t) :
  autoReconnect s = true ->
  Z.of_nat (SupaFlow.retryCount s + n) <= maxRetries s ->
  let exhausted := (rejections JSON_parse e n s).1 in
  SupaFlow.retryCount exhausted = (SupaFlow.retryCount s + n)%nat ∧
  (rejections JSON_parse e n s).2 =
    (fun k => calculateRetryDelay (set_retryCount (SupaFlow.retryCount s + k) s))
      <$> seq 1 n ∧
  (Z.of_nat (SupaFlow.retryCount s + n) = maxRetries s ->
   completion (connect JSON_parse (FetchRejected e) exhausted)
     = Raised (maxRetriesExceeded (SupaFlow.retryCount s + n)) ∧
   scheduled (effects (connect JSON_parse (FetchRejected e) exhausted)) = [] ∧
   SupaFlow.retryCount (final (connect JSON_parse (FetchRejected e) exhausted))
     = (SupaFlow.retryCount s + n)%nat).
Proof.
  intros Hauto Hbudget exhausted. subst exhausted.
  destruct (rejections_run JSON_parse e n s Hauto Hbudget) as (Hcount & Hopt & Hdelays).
  split; [exact Hcount|]. split; [exact Hdelays|].
  intros Hlimit. rewrite connect_rejected_run.
  assert (Hmax : maxRetries (rejections JSON_parse e n s).1 = maxRetries s)
    by (unfold maxRetries; by rewrite Hopt).
  rewrite Hmax, Hcount.
  destruct (Z.leb_spec (maxRetries s) (Z.of_nat (SupaFlow.retryCount s + n))); [|lia].
  cbn. by rewrite Hcount.
Qed.

Lemma retry_budget_witness :
  (rejections not_json (Str "network") 10 (constructor SupaFlowOptions.none 0)).2
    = Finite <$> [2000; 4000; 8000; 16000; 30000; 30000; 30000; 30000; 30000; 30000] ∧
  completion
    (connect not_json (FetchRejected (Str "network"))
       (rejections not_json (Str "network") 10 (constructor SupaFlowOptions.none 0)).1)
    = Raised (maxRetriesExceeded 10).
Proof.
  destruct (retry_budget not_json (Str "network") 10 (constructor SupaFlowOptions.none 0))
    as (_ & Hdelays & Hterminal); [reflexivity | vm_compute; discriminate |].
  split.
  - rewrite Hdelays. vm_compute. reflexivity.
  - apply Hterminal. reflexivity.
Defined.

Lemma readLoop_frame JSON_parse reads ending s :
  SupaFlow.retryCount (final (readLoop JSON_parse reads ending s)) = SupaFlow.retryCount s ∧
  SupaFlow.options (final (readLoop JSON_parse reads ending s)) = SupaFlow.options s ∧
  SupaFlow.connectionState (final (readLoop JSON_parse reads ending s))
    = SupaFlow.connectionState s.
Proof.
  split; [|split].
  - apply (readLoop_preserves (same SupaFlow.retryCount) _ pushBuffer_same_retryCount).
  - apply (readLoop_preserves (same SupaFlow.options) _ pushBuffer_same_options).
  - apply (readLoop_preserves (same SupaFlow.connectionState) _
             pushBuffer_same_connectionState).
Qed.

(** X12. A read that fails after the connection was accepted restarts the
    backoff: with auto-reconnect on and a positive [maxRetries], [connect]
    returns normally with the counter at 1 and schedules the reconnection
    with the delay for the counter 1, whatever the counter was before the
    attempt; MAX_RETRIES_EXCEEDED is not thrown. *)
Theorem read_failure_restarts_backoff (JSON_parse : string -> option any)
    (status : Z) (statusText : string) (reads : list ReadResult) (ending : StreamEnd)
    (s s1 : SupaFlow.t) (e : any) (t1 : list Effect) :
  readLoop JSON_parse reads ending (accepted s) = (Raised (ThrownOther e), s1, t1) ->
  autoReconnect s = true ->
  0 < maxRetries s ->
  connect JSON_parse (Response true status statusText (Some (reads, ending))) s =
  (Done tt,
   set_retryCount 1 (set_connectionState ERROR s1),
   StateChanged CONNECTING :: t1 ++
     [StateChanged ERROR;
      ReconnectScheduled (calculateRetryDelay (set_retryCount 1 s))]).
Proof.
  intros Hloop Hauto Hmax.
  destruct (readLoop_frame JSON_parse reads ending (accepted s)) as (Hcount & Hopt & _).
  rewrite Hloop in Hcount, Hopt. cbn in Hcount, Hopt.
  rewrite accepted_retryCount in Hcount. rewrite accepted_options in Hopt.
  rewrite connect_run, attempt_accepted, Hloop, recover_run.
  assert (Hmax1 : maxRetries s1 = maxRetries s) by (unfold maxRetries; by rewrite Hopt).
  assert (Hauto1 : autoReconnect s1 = true) by (unfold autoReconnect; by rewrite Hopt).
  rewrite Hmax1, Hauto1, Hcount. change (Z.of_nat 0) with 0.
  destruct (Z.leb_spec (maxRetries s) 0); [lia|].
  assert (Hdelay : calculateRetryDelay (set_retryCount 1 s1) =
                   calculateRetryDelay (set_retryCount 1 s))
    by (apply calculateRetryDelay_depends; [exact Hopt | reflexivity]).
  by rewrite Hdelay.
Qed.

Lemma read_failure_restarts_backoff_witness :
  scheduled
    (effects (connect not_json
                (Response true 200 "OK" (Some ([], ReadRejected (Str "reset"))))
                failed_twice)) = [Finite 2000] ∧
  SupaFlow.retryCount
    (final (connect not_json
              (Response true 200 "OK" (Some ([], ReadRejected (Str "reset"))))
              failed_twice)) = 1%nat.
Proof.
  rewrite (read_failure_restarts_backoff not_json 200 "OK" [] (ReadRejected (Str "reset"))
             failed_twice (accepted failed_twice) (Str "reset") []);
    [split; reflexivity | reflexivity | reflexivity | reflexivity].
Defined.

(** X13. When the stream of an accepted connection ends, [connect] returns
    in the state CONNECTED; with auto-reconnect on it has scheduled one
    reconnection before, with the delay for the counter 0, whatever the
    counter was before the attempt; with auto-reconnect off it schedules
    none. *)
Theorem stream_end_schedules_first_delay (JSON_parse : string -> option any)
    (status : Z) (statusText : string) (reads : list ReadResult)
    (s s1 : SupaFlow.t) (t1 : list Effect) :
  readLoop JSON_parse reads EndOfStream (accepted s) = (Done tt, s1, t1) ->
  connect JSON_parse (Response true status statusText (Some (reads, EndOfStream))) s =
  (Done tt,
   set_connectionState CONNECTED s1,
   StateChanged CONNECTING :: t1 ++
     (if autoReconnect s
      then [ReconnectScheduled (calculateRetryDelay (set_retryCount 0 s))] else []) ++
     [StateChanged CONNECTED]) ∧
  SupaFlow.retryCount s1 = 0%nat.
Proof.
  intros Hloop.
  destruct (readLoop_frame JSON_parse reads EndOfStream (accepted s)) as (Hcount & Hopt & _).
  rewrite Hloop in Hcount, Hopt. cbn in Hcount, Hopt.
  rewrite accepted_retryCount in Hcount. rewrite accepted_options in Hopt.
  split; [|exact Hcount].
  rewrite connect_run, attempt_accepted, Hloop.
  assert (Hauto1 : autoReconnect s1 = autoReconnect s) by (unfold autoReconnect; by rewrite Hopt).
  rewrite Hauto1.
  assert (Hdelay : calculateRetryDelay s1 = calculateRetryDelay (set_retryCount 0 s))
    by (apply calculateRetryDelay_depends; [by rewrite Hopt | exact Hcount]).
  by rewrite Hdelay.
Qed.

Lemma stream_end_schedules_first_delay_witness :
  scheduled (effects (connect not_json (ended_stream 1 ["data: x"; ""]) failed_twice))
    = [Finite 1000].
Proof.
  destruct (stream_end_schedules_first_delay not_json 200 "OK"
              [Chunk 1 (Some (text_of_lines ["data: x"; ""]))] failed_twice
              (final (readLoop not_json
                        [Chunk 1 (Some (text_of_lines ["data: x"; ""]))]
                        EndOfStream (accepted failed_twice)))
              (effects (readLoop not_json
                          [Chunk 1 (Some (text_of_lines ["data: x"; ""]))]
                          EndOfStream (accepted failed_twice))))
    as [Hrun _]; [vm_compute; reflexivity|].
  unfold ended_stream. rewrite Hrun. vm_compute. reflexivity.
Defined.

Lemma stateChanges_cons state t :
  stateChanges (StateChanged state :: t) = state :: stateChanges t.
Proof. reflexivity. Qed.

Lemma recover_states error s :
  let r := recover error s in
  getState (final r) = ERROR ∧ stateChanges (effects r) = [ERROR] ∧
  completion r ≠ Suspended ∧ completion r ≠ Diverged.
Proof.
  cbn zeta. rewrite recover_run. destruct error; [by repeat split|].
  destruct (maxRetries s <=? _); [by repeat split|].
  destruct (autoReconnect s); by repeat split.
Qed.

(** X14. The states of a connection attempt. [connect] reports CONNECTING
    first and then at most one more state, the one it ends in: CONNECTED when
    it returns after the end of the stream, ERROR when it throws or absorbs a
    failure; while it is suspended or does not return the state stays
    CONNECTING. RECONNECTING and DISCONNECTED are never reported by
    [connect]. *)
Theorem connect_reports_states (JSON_parse : string -> option any)
    (response : FetchResult) (s : SupaFlow.t) :
  let r := connect JSON_parse response s in
  stateChanges (effects r) =
    CONNECTING :: match getState (final r) with
                  | CONNECTING => []
                  | state => [state]
                  end ∧
  (getState (final r) = CONNECTING ∨ getState (final r) = CONNECTED ∨
   getState (final r) = ERROR) ∧
  (∀ e, completion r = Raised e -> getState (final r) = ERROR) ∧
  (completion r = Suspended ∨ completion r = Diverged ->
   getState (final r) = CONNECTING) ∧
  (getState (final r) = CONNECTED -> completion r = Done tt).
Proof.
  cbn zeta. rewrite connect_run.
  assert (Hcatch : ∀ error s1 t1,
            stateChanges t1 = [] ->
            let r := (let '(c, s2, t2) := recover error s1 in
                      (c, s2, StateChanged CONNECTING :: t1 ++ t2)) in
            stateChanges (effects r) =
              CONNECTING :: match getState (final r) with
                            | CONNECTING => []
                            | state => [state]
                            end ∧
            (getState (final r) = CONNECTING ∨ getState (final r) = CONNECTED ∨
             getState (final r) = ERROR) ∧
            (∀ e, completion r = Raised e -> getState (final r) = ERROR) ∧
            (completion r = Suspended ∨ completion r = Diverged ->
             getState (final r) = CONNECTING) ∧
            (getState (final r) = CONNECTED -> completion r = Done tt)).
  { intros error s1 t1 Ht1. cbn zeta.
    destruct (recover_states error s1) as (Hstate & Hchanges & Hsusp & Hdiv).
    destruct (recover error s1) as [[c s2] t2].
    unfold completion, final, effects in *. cbn [fst snd] in *.
    rewrite stateChanges_cons, stateChanges_app, Ht1, Hchanges, Hstate.
    repeat split; auto.
    - intros [->| ->]; done.
    - discriminate. }
  destruct response as [|e|ok status statusText body].
  - cbn. repeat split; auto; try discriminate; try (by intros [|]).
  - apply (Hcatch (ThrownOther e) (entering s) []). reflexivity.
  - destruct ok; [|apply (Hcatch (connectionError status statusText) (entering s) []);
                   reflexivity].
    destruct body as [[reads ending]|];
      [|apply (Hcatch invalidResponse (entering s) []); reflexivity].
    rewrite attempt_accepted.
    destruct (readLoop_frame JSON_parse reads ending (accepted s)) as (_ & _ & Hstate).
    assert (Hquiet := readLoop_produces_dispatch JSON_parse reads ending (accepted s)).
    apply stateChanges_dispatch in Hquiet.
    rewrite accepted_connectionState in Hstate.
    destruct (readLoop JSON_parse reads ending (accepted s)) as [[[[]|e| |] s1] t1];
      cbn [final effects fst snd] in Hstate, Hquiet.
    + unfold completion, final, effects. cbn [fst snd].
      rewrite stateChanges_cons, !stateChanges_app, Hquiet.
      destruct (autoReconnect s1); cbn; repeat split; auto; try discriminate;
        try (by intros [|]).
    + by apply Hcatch.
    + unfold completion, final, effects, getState. cbn [fst snd].
      rewrite stateChanges_cons, Hstate, Hquiet.
      repeat split; auto; try discriminate.
    + unfold completion, final, effects, getState. cbn [fst snd].
      rewrite stateChanges_cons, Hstate, Hquiet.
      repeat split; auto; try discriminate.
Qed.

(** ** Batching *)

Lemma batchThreshold_positive s :
  0 < batchSize s ->
  or_default
    (BatchConfig.size
       (default BatchConfig.empty (SupaFlowOptions.batchConfig (SupaFlow.options s))))
    10 = batchSize s.
Proof.
  unfold batchSize.
  destruct (BatchConfig.size _) as [[| |]|]; cbn; first [lia | reflexivity].
Qed.

Lemma processBatch_below s :
  0 < batchSize s ->
  Z.of_nat (length (SupaFlow.batchBuffer s)) < batchSize s ->
  processBatch s = (Done tt, s, []).
Proof.
  intros Hsize Hbelow.
  destruct (processBatch_run s Hsize) as (batches & rest & Hrun & Hcat & Hall & _).
  destruct batches as [|b batches].
  - cbn in Hcat. subst rest. rewrite Hrun. by rewrite set_batchBuffer_same.
  - inversion Hall as [|? ? Hb _]; subst.
    rewrite <- Hcat in Hbelow. cbn in Hbelow. rewrite !length_app in Hbelow. lia.
Qed.

Lemma processBatch_exact s :
  0 < batchSize s ->
  Z.of_nat (length (SupaFlow.batchBuffer s)) = batchSize s ->
  processBatch s =
    (Done tt, set_batchBuffer [] s, batchEffects s (SupaFlow.batchBuffer s)).
Proof.
  intros Hsize Hexact.
  destruct (processBatch_run s Hsize) as (batches & rest & Hrun & Hcat & Hall & Hrest).
  assert (Hlen := f_equal length Hcat). rewrite length_app in Hlen.
  destruct batches as [|b [|b' batches]].
  - cbn in Hlen. lia.
  - inversion Hall as [|? ? Hb _]; subst. cbn in Hlen. rewrite length_app in Hlen.
    cbn in Hlen. assert (rest = []) as -> by (destruct rest; [done | cbn in Hlen; lia]).
    cbn in Hcat. rewrite !app_nil_r in Hcat. subst b.
    rewrite Hrun. cbn. by rewrite app_nil_r.
  - inversion Hall as [|? ? Hb Hall']; subst.
    inversion Hall' as [|? ? Hb' _]; subst.
    cbn in Hlen. rewrite !length_app in Hlen. lia.
Qed.

(** X15. The batch buffer of the read loop stays below the batch size. With
    batching on and a positive size, a payload that joins a buffer holding
    fewer items than the size either completes a batch, which is then
    emitted whole, in the order of arrival, leaving the buffer empty, or is
    kept; in both cases the buffer ends below the size. With batching off the
    step does nothing. *)
Theorem batch_buffer_stays_below_size (parsedData : any) (s : SupaFlow.t) :
  0 < batchSize s ->
  Z.of_nat (length (getBatchBuffer s)) < batchSize s ->
  (batchConfig_enabled s = true ->
   collectBatch parsedData s =
     (if decide (Z.of_nat (length (getBatchBuffer s)) + 1 = batchSize s)
      then (Done tt, set_batchBuffer [] s,
            batchEffects s (getBatchBuffer s ++ [parsedData]))
      else (Done tt, set_batchBuffer (getBatchBuffer s ++ [parsedData]) s, [])) ∧
   Z.of_nat (length (getBatchBuffer (final (collectBatch parsedData s)))) < batchSize s) ∧
  (batchConfig_enabled s = false -> collectBatch parsedData s = (Done tt, s, [])).
Proof.
  unfold getBatchBuffer. intros Hsize Hbelow. split.
  - intros Hon.
    assert (Hrun : collectBatch parsedData s =
      (if decide (Z.of_nat (length (SupaFlow.batchBuffer s)) + 1 = batchSize s)
       then (Done tt, set_batchBuffer [] s,
             batchEffects s (SupaFlow.batchBuffer s ++ [parsedData]))
       else (Done tt, set_batchBuffer (SupaFlow.batchBuffer s ++ [parsedData]) s, []))).
    { unfold collectBatch, bind, gets, modify. rewrite Hon.
      cbn -[processBatch decide].
      set (s1 := set_batchBuffer (SupaFlow.batchBuffer s ++ [parsedData]) s).
      change (SupaFlow.options s) with (SupaFlow.options s1).
      rewrite (batchThreshold_positive s1 Hsize).
      change (batchSize s1) with (batchSize s).
      rewrite length_app. cbn [length]. rewrite Nat2Z.inj_add.
      change (Z.of_nat 1) with 1.
      destruct (decide (Z.of_nat (length (SupaFlow.batchBuffer s)) + 1 = batchSize s))
        as [Hfull|Hroom].
      - destruct (Z.leb_spec (batchSize s)
                    (Z.of_nat (length (SupaFlow.batchBuffer s)) + 1)); [|lia].
        assert (Hexact : Z.of_nat (length (SupaFlow.batchBuffer s1)) = batchSize s1).
        { change (SupaFlow.batchBuffer s1) with (SupaFlow.batchBuffer s ++ [parsedData]).
          change (batchSize s1) with (batchSize s).
          rewrite length_app. cbn [length]. lia. }
        rewrite (processBatch_exact s1 Hsize Hexact).
        reflexivity.
      - destruct (Z.leb_spec (batchSize s)
                    (Z.of_nat (length (SupaFlow.batchBuffer s)) + 1)); [lia|].
        reflexivity. }
    split; [exact Hrun|]. rewrite Hrun.
    destruct (decide _); cbn; [lia|]. rewrite length_app. cbn. lia.
  - intros Hoff. unfold collectBatch, bind, gets. by rewrite Hoff.
Qed.

Lemma batch_buffer_stays_below_size_witness :
  collectBatch (Str "b") (set_batchBuffer [Str "a"] paired_flow)
  = (Done tt, set_batchBuffer [] paired_flow,
     batchEffects paired_flow [Str "a"; Str "b"]).
Proof.
  destruct (batch_buffer_stays_below_size (Str "b") (set_batchBuffer [Str "a"] paired_flow))
    as [Hon _]; [reflexivity | reflexivity |].
  destruct Hon as [Hrun _]; [reflexivity|].
  rewrite Hrun. reflexivity.
Defined.

(** X16. The interval timer of the batch configuration delivers full batches
    only: on a batch buffer that holds fewer items than a positive batch size
    its tick does nothing, so a partial batch stays until
    [flushBatchBuffer] is called. *)
Theorem batch_timer_keeps_partial_batches (s : SupaFlow.t) :
  0 < batchSize s ->
  Z.of_nat (length (getBatchBuffer s)) < batchSize s ->
  batchIntervalTick s = (Done tt, s, []).
Proof.
  unfold getBatchBuffer. intros Hsize Hbelow. unfold batchIntervalTick, bind, gets.
  destruct (0 <? length (SupaFlow.batchBuffer s))%nat; [|reflexivity].
  by rewrite processBatch_below.
Qed.

Lemma batch_timer_keeps_partial_batches_witness :
  batchIntervalTick batching_reading = (Done tt, batching_reading, []) ∧
  getBatchBuffer batching_reading = [Str "a"; Str "b"; Str "c"].
Proof.
  split; [|vm_compute; reflexivity].
  apply batch_timer_keeps_partial_batches; vm_compute; reflexivity.
Defined.

(** X17. A batch size of zero or less makes [processBatch] loop for ever:
    its condition holds for every buffer and [splice] removes nothing. The
    read loop reaches it, with batching on, when the buffer length reaches
    [size || 10]: at the tenth pending payload for the size 0, at the first
    for a negative size; the interval timer reaches it at its first tick on a
    buffer that is not empty. *)
Theorem nonpositive_batch_size_hangs (parsedData : any) (s : SupaFlow.t) :
  batchSize s <= 0 ->
  (∀ fuel, completion (processBatch_loop fuel (batchSize s) s) = Diverged) ∧
  completion (processBatch s) = Diverged ∧
  (getBatchBuffer s ≠ [] -> completion (batchIntervalTick s) = Diverged) ∧
  (batchConfig_enabled s = true ->
   or_default
     (BatchConfig.size
        (default BatchConfig.empty (SupaFlowOptions.batchConfig (SupaFlow.options s))))
     10 <= Z.of_nat (length (getBatchBuffer s)) + 1 ->
   completion (collectBatch parsedData s) = Diverged).
Proof.
  intros Hsize.
  assert (Hhangs : completion (processBatch s) = Diverged).
  { unfold processBatch, bind, gets.
    assert (H := processBatch_loop_nonpositive
                   (S (length (SupaFlow.batchBuffer s))) (batchSize s) s Hsize).
    destruct (processBatch_loop _ _ s) as [[c s'] t]. cbn in *. by subst. }
  split; [|split; [|split]].
  - intros fuel. by apply processBatch_loop_nonpositive.
  - exact Hhangs.
  - unfold getBatchBuffer, batchIntervalTick, bind, gets. intros Hpending.
    destruct (SupaFlow.batchBuffer s) as [|item pending] eqn:Hbuf; [done|].
    cbn [length Nat.ltb Nat.leb]. 
    destruct (processBatch s) as [[c s'] t]. cbn in *. by subst.
  - unfold getBatchBuffer. intros Hon Hfull.
    unfold collectBatch, bind, gets, modify. rewrite Hon.
    cbn -[processBatch].
    rewrite length_app. cbn [length]. rewrite Nat2Z.inj_add. change (Z.of_nat 1) with 1.
    destruct (Z.leb_spec
                (or_default
                   (BatchConfig.size
                      (default BatchConfig.empty
                         (SupaFlowOptions.batchConfig (SupaFlow.options s)))) 10)
                (Z.of_nat (length (SupaFlow.batchBuffer s)) + 1)); [|lia].
    set (s1 := set_batchBuffer (SupaFlow.batchBuffer s ++ [parsedData]) s).
    unfold processBatch, bind, gets.
    assert (Hloop := processBatch_loop_nonpositive
                   (S (length (SupaFlow.batchBuffer s1))) (batchSize s1) s1 Hsize).
    destruct (processBatch_loop _ _ s1) as [[c s'] t]. cbn in *. by subst.
Qed.

Lemma nonpositive_batch_size_hangs_witness :
  completion (connect not_json nine_records (constructor zero_batch_options 0))
    = Suspended ∧
  completion
    (collectBatch (Str "10")
       (final (connect not_json nine_records (constructor zero_batch_options 0))))
    = Diverged ∧
  completion
    (collectBatch (Str "1") (constructor negative_batch_options 0)) = Diverged.
Proof.
  split; [vm_compute; reflexivity|]. split.
  - apply (nonpositive_batch_size_hangs (Str "10"));
      [vm_compute; discriminate | reflexivity |].
    vm_compute. discriminate.
  - apply (nonpositive_batch_size_hangs (Str "1"));
      [vm_compute; discriminate | reflexivity |].
    vm_compute. discriminate.
Defined.

(** ** The message loop *)

Lemma dispatch_depends s s' event data :
  SupaFlow.options s' = SupaFlow.options s ->
  SupaFlow.eventHandlers s' = SupaFlow.eventHandlers s ->
  dispatch s' event data = dispatch s event data.
Proof.
  intros Hopt Hhandlers. unfold dispatch, handlersOf.
  by rewrite (shouldProcessEvent_options _ _ _ Hopt),
             (transformData_options _ _ _ Hopt), Hhandlers.
Qed.

Lemma collectBatch_off parsedData s :
  batchConfig_enabled s = false -> collectBatch parsedData s = (Done tt, s, []).
Proof. intros Hoff. unfold collectBatch, bind, gets. by rewrite Hoff. Qed.

Section MessageLoop.
Context (JSON_parse : string -> option any).

Lemma processMessage_plain now message s data :
  batchConfig_enabled s = false ->
  handled s (decodeData JSON_parse message) = Returns data ->
  processMessage JSON_parse now message s =
  (Done tt,
   set_buffer (shiftOver (bufferCapacity s)
                 (SupaFlow.buffer s ++ [entryOf now (SupaFlow.retryCount s) message data]))
     (set_lastMessageTime now s),
   messageEffects JSON_parse s message).
Proof.
  intros Hoff Hdata. unfold processMessage.
  unfold bind at 1, modify at 1. unfold bind at 1.
  rewrite applyDataHandler_run.
  change (handled (set_lastMessageTime now s)) with (handled s). rewrite Hdata.
  unfold bind at 1. rewrite collectBatch_off by exact Hoff.
  unfold bind, gets. rewrite emit_run, pushBuffer_run.
  unfold messageEffects, payloadOf, eventName. rewrite Hdata.
  cbn [app]. rewrite app_nil_r.
  rewrite (dispatch_depends s (set_lastMessageTime now s)) by reflexivity.
  reflexivity.
Qed.

Lemma processMessage_throws now message s e :
  handled s (decodeData JSON_parse message) = Throws e ->
  processMessage JSON_parse now message s = (Raised e, set_lastMessageTime now s, []).
Proof.
  intros Hthrows. unfold processMessage.
  unfold bind at 1, modify at 1. unfold bind at 1.
  rewrite applyDataHandler_run.
  change (handled (set_lastMessageTime now s)) with (handled s).
  by rewrite Hthrows.
Qed.

Lemma processMessages_plain now messages : ∀ s,
  batchConfig_enabled s = false ->
  Forall (fun message =>
            ∃ data, handled s (decodeData JSON_parse message) = Returns data)
         messages ->
  effects (processMessages JSON_parse now messages s)
    = concat (messageEffects JSON_parse s <$> messages).
Proof.
  induction messages as [|message messages IH]; intros s Hoff Hall; [reflexivity|].
  inversion Hall as [|? ? [data Hdata] Hrest]; subst.
  cbn [processMessages]. unfold bind.
  rewrite (processMessage_plain now message s data Hoff Hdata).
  set (s1 := set_buffer _ (set_lastMessageTime now s)).
  specialize (IH s1 Hoff Hrest).
  destruct (processMessages JSON_parse now messages s1) as [[c s2] t2].
  unfold effects in *. cbn [snd fst] in *. rewrite IH. cbn [fmap list_fmap concat].
  reflexivity.
Qed.

End MessageLoop.

(** X18. With batching off the message loop hands the records to [emit] one
    after the other, in the order of the list: when the data handler returns
    on each of them, the effects of the loop are, record by record, the
    payload emitted under the event name of the record, which is the name
    message when the record has no event field or an empty one, and nothing
    else is emitted. *)
Theorem records_are_emitted_in_order (JSON_parse : string -> option any)
    (now : Z) (messages : list EventMessage.t) (s : SupaFlow.t) :
  batchConfig_enabled s = false ->
  Forall (fun message =>
            ∃ data, handled s (decodeData JSON_parse message) = Returns data)
         messages ->
  effects (processMessages JSON_parse now messages s)
    = concat (messageEffects JSON_parse s <$> messages) ∧
  emissions (effects (processMessages JSON_parse now messages s))
    = (fun message => (eventName message, payloadOf JSON_parse s message)) <$> messages ∧
  (∀ message, EventMessage.event message = None ∨ EventMessage.event message = Some "" ->
     eventName message = "message").
Proof.
  intros Hoff Hall. split; [by apply processMessages_plain|]. split.
  - rewrite processMessages_plain by done.
    clear Hall. induction messages as [|message messages IH]; [reflexivity|].
    cbn [fmap list_fmap concat]. rewrite emissions_app.
    change (list_fmap _ _ ?f messages) with (f <$> messages). rewrite IH.
    unfold messageEffects.
    change (emissions (Emitted ?e ?d :: ?t)) with ((e, d) :: emissions t).
    by rewrite emissions_dispatch.
  - intros message [Hnone|Hempty]; unfold eventName; [by rewrite Hnone|by rewrite Hempty].
Qed.

Lemma records_are_emitted_in_order_witness :
  emissions
    (effects (processMessages not_json 5
                [EventMessage.mk None (Some "tick") (Some "a") None;
                 EventMessage.mk None (Some "") (Some "b") None;
                 data_message "c"]
                guarded_flow))
  = [("tick", Str "a"); ("message", Str "b"); ("message", Str "c")].
Proof.
  destruct (records_are_emitted_in_order not_json 5
              [EventMessage.mk None (Some "tick") (Some "a") None;
               EventMessage.mk None (Some "") (Some "b") None;
               data_message "c"]
              guarded_flow) as (_ & Hemitted & _).
  - reflexivity.
  - repeat constructor; by eexists.
  - rewrite Hemitted. reflexivity.
Defined.

(** X19. A data handler that throws on the first record of a chunk ends the
    read loop there: the loop raises what the handler threw, with no effect
    at all, so neither this record nor the ones after it in the chunk are
    emitted, batched or added to the history, and later chunks are not read.
    The parser has consumed the chunk all the same: the carry-over text and
    the last event id are those after the whole chunk. *)
Theorem throwing_data_handler_drops_the_chunk (JSON_parse : string -> option any)
    (now : Z) (chunk : string) (reads : list ReadResult) (ending : StreamEnd)
    (message : EventMessage.t) (rest : list EventMessage.t) (e : Thrown)
    (s : SupaFlow.t) :
  completion (parseEventStream chunk s) = Done (message :: rest) ->
  handled s (decodeData JSON_parse message) = Throws e ->
  let r := readLoop JSON_parse (Chunk now (Some chunk) :: reads) ending s in
  r = (Raised e, set_lastMessageTime now (final (parseEventStream chunk s)), []) ∧
  getBuffer (final r) = getBuffer s ∧
  getBatchBuffer (final r) = getBatchBuffer s ∧
  SupaFlow.lastEventId (final r) = SupaFlow.lastEventId (final (parseEventStream chunk s)).
Proof.
  intros Hparse Hthrows r.
  assert (Hrun : r = (Raised e, set_lastMessageTime now (final (parseEventStream chunk s)), [])).
  { unfold r. cbn [readLoop]. unfold bind at 1. unfold bind at 1.
    rewrite parseEventStream_run in *. cbn zeta in *.
    unfold completion, final in *. cbn [fst snd] in *.
    injection Hparse as Hparse. rewrite Hparse.
    cbn [processMessages]. unfold bind at 1.
    rewrite (processMessage_throws JSON_parse now message _ e) by exact Hthrows.
    reflexivity. }
  split; [exact Hrun|]. rewrite Hrun, parseEventStream_run. by cbn.
Qed.

Lemma throwing_data_handler_drops_the_chunk_witness :
  readLoop not_json
    [Chunk 5 (Some (text_of_lines ["id: 1"; "data: a"; ""; "id: 2"; "data: b"; ""]));
     Chunk 6 (Some (text_of_lines ["data: c"; ""]))]
    EndOfStream (constructor strict_options 0)
  = (Raised (ThrownOther (Str "bad")),
     set_lastMessageTime 5 (set_lastEventId (Some "2") (constructor strict_options 0)),
     []).
Proof.
  destruct (throwing_data_handler_drops_the_chunk not_json 5
              (text_of_lines ["id: 1"; "data: a"; ""; "id: 2"; "data: b"; ""])
              [Chunk 6 (Some (text_of_lines ["data: c"; ""]))] EndOfStream
              (EventMessage.mk (Some "1") None (Some "a") None)
              [EventMessage.mk (Some "2") None (Some "b") None]
              (ThrownOther (Str "bad"))
              (constructor strict_options 0)) as [Hrun _].
  - vm_compute. reflexivity.
  - reflexivity.
  - rewrite Hrun. vm_compute. reflexivity.
Defined.

(** ** The heartbeat *)

(** A reconnection during which no chunk arrives leaves the options and the
    time of the last message as they were. *)
Lemma reconnect_silent_preserves JSON_parse response (R : relation SupaFlow.t)
    `{!PreOrder R} :
  (∀ s v, R s (set_connectionState v s)) ->
  (∀ s v, R s (set_controller v s)) ->
  (∀ s v, R s (set_heartbeatInterval v s)) ->
  (∀ s v, R s (set_batchInterval v s)) ->
  (∀ s v, R s (set_retryCount v s)) ->
  silent response ->
  preserves R (reconnect JSON_parse response).
Proof.
  intros H1 H2 H3 H4 H5 Hsilent. unfold reconnect.
  apply (preserves_bind R); [by apply close_preserves|]. intros _.
  unfold connect, setState.
  apply (preserves_bind R); [preserving; auto|]. intros _.
  apply (preserves_bind R); [preserving; auto|]. intros _.
  apply (preserves_try_catch R).
  - destruct response as [|e|ok status statusText body]; cbn [attempt]; [preserving..|].
    destruct ok; cbn [negb]; [|preserving].
    destruct body as [[[|read reads] ending]|]; [|done|preserving].
    apply (preserves_bind R); [preserving; auto|]. intros _.
    apply (preserves_bind R); [by apply handleHeartbeat_preserves|]. intros _.
    cbn [readLoop]. unfold setState. preserving; auto.
  - intros error. unfold recover, setState. preserving; auto.
Qed.

Lemma close_run s : close s = (Done tt, final (close s), effects (close s)).
Proof. by destruct s as [o rc b [] [hi|] lmt lid mb eh cs bb [bi|]]. Qed.

Lemma accepted_heartbeatInterval s h :
  SupaFlowOptions.heartbeat (SupaFlow.options s) = Some h ->
  Heartbeat.enabled h = true ->
  SupaFlow.heartbeatInterval (accepted s) = Some (or_default (Heartbeat.interval h) 30000).
Proof.
  intros Hh Hon. unfold accepted, handleHeartbeat, bind, gets.
  change (SupaFlow.options (set_retryCount 0 (entering s))) with (SupaFlow.options s).
  by rewrite Hh, Hon.
Qed.

(** A reconnection that is accepted installs the heartbeat timer again, and
    the timer stays when the stream then ends or fails. *)
Lemma reconnect_installs_heartbeat JSON_parse status statusText ending s h :
  SupaFlowOptions.heartbeat (SupaFlow.options s) = Some h ->
  Heartbeat.enabled h = true ->
  SupaFlow.heartbeatInterval
    (final (reconnect JSON_parse
              (Response true status statusText (Some ([], ending))) s))
  = Some (or_default (Heartbeat.interval h) 30000).
Proof.
  intros Hh Hon. unfold reconnect. unfold bind at 1. rewrite close_run.
  set (sc := final (close s)).
  assert (Hopt : SupaFlow.options sc = SupaFlow.options s)
    by (by apply (close_preserves (same SupaFlow.options))).
  rewrite <- Hopt in Hh.
  assert (Htimer := accepted_heartbeatInterval sc h Hh Hon).
  rewrite connect_run, attempt_accepted.
  destruct ending as [|e|]; cbn [readLoop]; unfold ret, throw, suspend.
  - by destruct (autoReconnect (accepted sc)).
  - rewrite recover_run.
    destruct (maxRetries (accepted sc) <=? _); [exact Htimer|].
    destruct (autoReconnect (accepted sc)); exact Htimer.
  - exact Htimer.
Qed.

(** X20. The heartbeat measures the silence since the last record, not since
    the last connection. A tick that finds the silence longer than
    [timeout || 60000] reconnects; the reconnection does not touch the time
    of the last message, so when no chunk arrives on the new connection
    every later tick reconnects again; and with the heartbeat enabled an
    accepted connection has installed the timer for such ticks, also when
    its stream has ended or failed since. *)
Theorem heartbeat_clock_survives_reconnect (JSON_parse : string -> option any)
    (now later : Z) (response response' : FetchResult) (s : SupaFlow.t) :
  heartbeatTimeout s < now - SupaFlow.lastMessageTime s ->
  silent response ->
  now <= later ->
  let s1 := final (heartbeatTick JSON_parse now response s) in
  heartbeatTick JSON_parse now response s = reconnect JSON_parse response s ∧
  SupaFlow.lastMessageTime s1 = SupaFlow.lastMessageTime s ∧
  heartbeatTick JSON_parse later response' s1 = reconnect JSON_parse response' s1 ∧
  (∀ status statusText ending h,
     response = Response true status statusText (Some ([], ending)) ->
     SupaFlowOptions.heartbeat (SupaFlow.options s) = Some h ->
     Heartbeat.enabled h = true ->
     SupaFlow.heartbeatInterval s1 = Some (or_default (Heartbeat.interval h) 30000)).
Proof.
  intros Hstale Hsilent Hlater s1.
  assert (Htick : heartbeatTick JSON_parse now response s = reconnect JSON_parse response s).
  { unfold heartbeatTick, bind, gets.
    destruct (Z.ltb_spec (heartbeatTimeout s) (now - SupaFlow.lastMessageTime s)); [|lia].
    by destruct (reconnect JSON_parse response s) as [[c s'] t]. }
  assert (Htime : SupaFlow.lastMessageTime s1 = SupaFlow.lastMessageTime s).
  { unfold s1. rewrite Htick.
    by apply (reconnect_silent_preserves JSON_parse response
                (same SupaFlow.lastMessageTime)). }
  assert (Hopt : SupaFlow.options s1 = SupaFlow.options s).
  { unfold s1. rewrite Htick.
    by apply (reconnect_silent_preserves JSON_parse response (same SupaFlow.options)). }
  split; [exact Htick|]. split; [exact Htime|]. split.
  - unfold heartbeatTick, bind, gets.
    assert (Htimeout : heartbeatTimeout s1 = heartbeatTimeout s)
      by (unfold heartbeatTimeout; by rewrite Hopt).
    rewrite Htimeout, Htime.
    destruct (Z.ltb_spec (heartbeatTimeout s) (later - SupaFlow.lastMessageTime s)); [|lia].
    by destruct (reconnect JSON_parse response' s1) as [[c s'] t].
  - intros status statusText ending h -> Hh Hon. unfold s1. rewrite Htick.
    by apply reconnect_installs_heartbeat.
Qed.

Lemma heartbeat_clock_survives_reconnect_witness :
  stateChanges
    (effects (heartbeatTick not_json 90001 silent_stream
                (final (heartbeatTick not_json 60001 silent_stream
                          (constructor SupaFlowOptions.none 0)))))
  = [DISCONNECTED; CONNECTING].
Proof.
  destruct (heartbeat_clock_survives_reconnect not_json 60001 90001
              silent_stream silent_stream (constructor SupaFlowOptions.none 0))
    as (_ & _ & Hagain & _).
  - reflexivity.
  - exact I.
  - lia.
  - rewrite Hagain. reflexivity.
Defined.
